(** * Coraza WAF: rule evaluation, transformations and audit logging

    A shallow embedding of
      - [pkg/engine/rule.go]      ([Rule.Evaluate] and its helpers),
      - the audit logger          ([ConcurrentLogger.WriteAudit]),
      - [transformations.Md5],
    together with the properties of the engine that the design document
    states about them.

    Conventions.  Go's [int] and [int64] are [Z]; Go strings are byte
    strings, hence [string] (a list of 8-bit [ascii]) and [len] is
    [String.length].  A [[]string] that the code copies and appends to lives
    in an explicit heap of backing arrays, so that aliasing is visible.  The
    collaborators whose code is not part of the engine file (the methods of
    [Transaction], the [Operator] and [Action] implementations) are section
    variables; every call to one of them is recorded in a call trace. *)

From stdpp Require Import base list strings gmap.
From Stdlib Require Import ZArith DecimalString DecimalZ DecimalPos Ascii Lia.

Open Scope Z_scope.

(** ** Go primitives *)

(** [strconv.Itoa]: the decimal numeral of an integer. *)
Definition Itoa (n : Z) : string := NilZero.string_of_int (Z.to_int n).

(** The number a decimal numeral denotes, if it is one. *)
Definition Atoi (s : string) : option Z :=
  option_map Z.of_int (NilZero.int_of_string s).

(** [len(s)] of a string, as an [int]. *)
Definition len_string (s : string) : Z := Z.of_nat (String.length s).

(** [len(l)] of a slice held as a list, as an [int]. *)
Definition len {A} (l : list A) : Z := Z.of_nat (length l).

(** *** Slices of strings and their backing arrays

    A slice header is a pointer to a backing array, a length and a capacity.
    The heap is the list of the backing arrays allocated so far; the address
    of an array is its index.  The code never reslices, so a header always
    points to the start of its array. *)

Module Slice.
Record t : Type := mk { array : nat; len : nat; cap : nat }.
End Slice.

Abbreviation Heap := (list (list string)).

(** The elements [s[0], ..., s[len-1]]. *)
Definition slice_read (h : Heap) (s : Slice.t) : list string :=
  take (Slice.len s) (default [] (h !! Slice.array s)).

(** ** Data model of [rule.go] *)

Definition ACTION_TYPE_METADATA : Z := 1.
Definition ACTION_TYPE_DISRUPTIVE : Z := 2.
Definition ACTION_TYPE_DATA : Z := 3.
Definition ACTION_TYPE_NONDISRUPTIVE : Z := 4.
Definition ACTION_TYPE_FLOW : Z := 5.

Module MatchData.
Record t : Type := mk { Collection : string; Key : string; Value : string }.
(** [&MatchData{}] *)
Definition zero : t := mk "" "" "".
End MatchData.

(** An entry of [tx.GetRemovedTargets(id)]: the code reads [c.Name] and
    [c.Key]. *)
Module Target.
Record t : Type := mk { Name : string; Key : string }.
End Target.

Module RuleVariable.
Record t : Type := mk {
  Count : bool;
  Collection : string;
  Key : string;
  Exceptions : Slice.t
}.
End RuleVariable.

Module RuleTransformation.
(** [TfFunc] is called through reflection with one string and its first
    result is read as a string. *)
Record t : Type := mk { Function : string; TfFunc : string -> string }.
End RuleTransformation.

Module RuleOp.
Record t (Op : Type) : Type := mk {
  Operator : Op;
  Data : string;
  Negation : bool
}.
Arguments mk {Op}.
Arguments Operator {Op}.
Arguments Data {Op}.
Arguments Negation {Op}.
End RuleOp.

Module Rule.
#[local] Unset Elimination Schemes.
(** [OperatorObj] is a pointer in the source; rules reach [Evaluate] with
    their operator compiled, so it is not optional here.  [Chain] is the
    nil-able pointer to the next link. *)
Inductive t (Act Op : Type) : Type := mk {
  Vars : string;
  Variables : list RuleVariable.t;
  Operator : string;
  OperatorObj : RuleOp.t Op;
  Disruptive : bool;
  Transformations : list RuleTransformation.t;
  HasChain : bool;
  ParentId : Z;
  Actions : list Act;
  ActionParams : string;
  MultiMatch : bool;
  Severity : string;
  Skip : bool;
  SecMark : string;
  Log : bool;
  Raw : string;
  Chain : option (t Act Op);
  DisruptiveAction : Z;
  DefaultDisruptiveAction : string;
  Id : Z;
  Tags : list string;
  Phase : Z;
  Msg : string;
  Rev : string;
  Maturity : string;
  Version : string;
  Status : Z
}.
#[local] Set Elimination Schemes.
Arguments mk {Act Op}.
Arguments Vars {Act Op}.
Arguments Variables {Act Op}.
Arguments Operator {Act Op}.
Arguments OperatorObj {Act Op}.
Arguments Disruptive {Act Op}.
Arguments Transformations {Act Op}.
Arguments HasChain {Act Op}.
Arguments ParentId {Act Op}.
Arguments Actions {Act Op}.
Arguments ActionParams {Act Op}.
Arguments MultiMatch {Act Op}.
Arguments Severity {Act Op}.
Arguments Skip {Act Op}.
Arguments SecMark {Act Op}.
Arguments Log {Act Op}.
Arguments Raw {Act Op}.
Arguments Chain {Act Op}.
Arguments DisruptiveAction {Act Op}.
Arguments DefaultDisruptiveAction {Act Op}.
Arguments Id {Act Op}.
Arguments Tags {Act Op}.
Arguments Phase {Act Op}.
Arguments Msg {Act Op}.
Arguments Rev {Act Op}.
Arguments Maturity {Act Op}.
Arguments Version {Act Op}.
Arguments Status {Act Op}.
End Rule.

(** ** The transformation pipeline (pure) *)

(** [rf.Call(rargs)[0].String()] *)
Definition callTf (value : string) (t : RuleTransformation.t) : string :=
  RuleTransformation.TfFunc t value.

(** The loop of [executeTransformationsMultimatch]: [value] is the running
    value, [res] the slice being appended to. *)
Fixpoint multimatchLoop (ts : list RuleTransformation.t)
    (value : string) (res : list string) : list string :=
  match ts with
  | [] => res
  | t :: ts' =>
      let value' := callTf value t in
      multimatchLoop ts' value' (res ++ [value'])
  end.

(** ** Collaborators

    The Go interfaces [Action] and [Operator], and the part of [Transaction]
    that [Rule.Evaluate] uses.  Their implementations are not in [rule.go].
    A method with a pointer receiver may update the transaction, so it
    returns the transaction it leaves behind; none of them is handed a
    slice of a rule, so none writes to the heap of backing arrays.  [growslice] is the capacity
    the Go runtime picks when [append] must reallocate (old capacity, needed
    length); only the needed length is guaranteed. *)
Class Host : Type := {
  Transaction : Type;
  Action : Type;
  Operator : Type;
  (* interface Action *)
  GetType : Action -> Z;
  Action_Evaluate : Action -> Rule.t Action Operator -> Transaction -> Transaction;
  (* interface Operator *)
  Operator_Evaluate : Operator -> Transaction -> string -> bool * Transaction;
  (* Transaction *)
  RuleRemoveById : Transaction -> list Z;
  GetRemovedTargets : Transaction -> Z -> list Target.t * Transaction;
  GetField : Transaction -> string -> string -> list string ->
             list MatchData.t * Transaction;
  MatchVars : Transaction -> list MatchData.t -> Transaction;
  SetCapturable : Transaction -> bool -> Transaction;
  MacroExpansion : Transaction -> string -> string * Transaction;
  MatchRule : Transaction -> Rule.t Action Operator -> list string ->
              list MatchData.t -> Transaction;
  (* Go runtime *)
  growslice : nat -> nat -> nat
}.

Section Engine.
Context `{H : Host}.

Abbreviation Rule := (Rule.t Action Operator).

Definition executeTransformationsMultimatch (r : Rule) (value : string)
  : list string :=
  multimatchLoop (Rule.Transformations r) value [value].

Definition executeTransformations (r : Rule) (value : string) : string :=
  fold_left callTf (Rule.Transformations r) value.

(** *** Calls, states and the evaluation monad *)

#[local] Unset Elimination Schemes.
(** One call made by an activation of [Rule.Evaluate], with its arguments
    and its result.  [CallAction i a] is
    [a.Evaluate(r, tx)] for [a] the [i]-th entry of [r.Actions];
    [CallEvaluate nr sub m] is [nr.Evaluate(tx)] returning [m], with the
    calls [sub] of that nested activation. *)
Inductive Call : Type :=
| CallGetRemovedTargets (id : Z) (ecol : list Target.t)
| CallGetField (collection key : string) (exceptions : list string)
    (values : list MatchData.t)
| CallOperator (data : string) (result : bool)
| CallMatchVars (matchedValues : list MatchData.t)
| CallAction (i : nat) (a : Action)
| CallSetCapturable (b : bool)
| CallMacroExpansion (text result : string)
| CallEvaluate (nr : Rule) (sub : list Call) (m : list MatchData.t)
| CallMatchRule (r : Rule) (msgs : list string)
    (matchedValues : list MatchData.t).
#[local] Set Elimination Schemes.

(** What the code can reach and update: the transaction and the backing
    arrays of string slices. *)
Record State : Type := mkState { tx : Transaction; heap : Heap }.

Record Outcome (A : Type) : Type := mkOutcome {
  value : A;
  state : State;
  trace : list Call
}.
Arguments mkOutcome {A}.
Arguments value {A}.
Arguments state {A}.
Arguments trace {A}.

Definition M (A : Type) : Type := State -> Outcome A.

Definition ret {A} (a : A) : M A := fun s => mkOutcome a s [].

Definition bind {A B} (m : M A) (f : A -> M B) : M B :=
  fun s =>
    let o1 := m s in
    let o2 := f (value o1) (state o1) in
    mkOutcome (value o2) (state o2) (trace o1 ++ trace o2).

Notation "x <- m ;; k" := (bind m (fun x => k))
  (at level 20, m at level 99, k at level 200, only parsing).
Notation "m ;;; k" := (bind m (fun _ => k))
  (at level 100, k at level 200, right associativity, only parsing).

(** A call of a transaction method that returns a result. *)
Definition call {A} (c : A -> Call) (f : Transaction -> A * Transaction)
  : M A :=
  fun s =>
    let p := f (tx s) in
    mkOutcome (fst p) (mkState (snd p) (heap s)) [c (fst p)].

(** A call of a method without result. *)
Definition call_ (c : Call) (f : Transaction -> Transaction) : M unit :=
  fun s => mkOutcome tt (mkState (f (tx s)) (heap s)) [c].

(** [for _, x := range l { acc = body(acc, x) }] *)
Fixpoint for_range {A B} (l : list A) (body : B -> A -> M B) (acc : B)
  : M B :=
  match l with
  | [] => ret acc
  | x :: l' => acc' <- body acc x ;; for_range l' body acc'
  end.

(** [for _, x := range l { body(x) }], where [i] is the index of the head
    of [l]. *)
Fixpoint for_each {A} (l : list A) (i : nat) (body : nat -> A -> M unit)
  : M unit :=
  match l with
  | [] => ret tt
  | x :: l' => body i x ;;; for_each l' (S i) body
  end.

(** *** [make], [copy] and [append] on string slices *)

Definition alloc (arr : list string) : M nat :=
  fun s => mkOutcome (length (heap s)) (mkState (tx s) (heap s ++ [arr])) [].

Definition read (sl : Slice.t) : M (list string) :=
  fun s => mkOutcome (slice_read (heap s) sl) s [].

(** [make([]string, n)] *)
Definition make (n : nat) : M Slice.t :=
  a <- alloc (replicate n "") ;; ret (Slice.mk a n n).

(** [copy(dst, src)]: the first [min(len(dst), len(src))] elements. *)
Definition copy (dst src : Slice.t) : M nat :=
  fun s =>
    let n := Nat.min (Slice.len dst) (Slice.len src) in
    let old := default [] (heap s !! Slice.array dst) in
    let new := take n (slice_read (heap s) src) ++ drop n old in
    mkOutcome n (mkState (tx s) (<[Slice.array dst := new]> (heap s))) [].

(** [append(sl, x)]: in place when the capacity allows, else into a new
    array. *)
Definition append (sl : Slice.t) (x : string) : M Slice.t :=
  fun s =>
    let n := Slice.len sl in
    if (n <? Slice.cap sl)%nat then
      let old := default [] (heap s !! Slice.array sl) in
      mkOutcome (Slice.mk (Slice.array sl) (S n) (Slice.cap sl))
        (mkState (tx s) (<[Slice.array sl := <[n := x]> old]> (heap s))) []
    else
      let newcap := Nat.max (S n) (growslice (Slice.cap sl) (S n)) in
      let arr := slice_read (heap s) sl ++ [x] ++ replicate (newcap - S n) "" in
      mkOutcome (Slice.mk (length (heap s)) (S n) newcap)
        (mkState (tx s) (heap s ++ [arr])) [].

(** *** [Rule.AddVariable] and [Rule.AddNegateVariable]

    The two methods with which the parser fills in the variables.  They
    update the rule in place; here they return the updated rule. *)

(** [r] with [r.Variables] replaced. *)
Definition withVariables (r : Rule) (variables : list RuleVariable.t) : Rule :=
  Rule.mk (Rule.Vars r) variables (Rule.Operator r) (Rule.OperatorObj r)
    (Rule.Disruptive r) (Rule.Transformations r) (Rule.HasChain r)
    (Rule.ParentId r) (Rule.Actions r) (Rule.ActionParams r)
    (Rule.MultiMatch r) (Rule.Severity r) (Rule.Skip r) (Rule.SecMark r)
    (Rule.Log r) (Rule.Raw r) (Rule.Chain r) (Rule.DisruptiveAction r)
    (Rule.DefaultDisruptiveAction r) (Rule.Id r) (Rule.Tags r) (Rule.Phase r)
    (Rule.Msg r) (Rule.Rev r) (Rule.Maturity r) (Rule.Version r)
    (Rule.Status r).

(** [[]string{}]: no element and no capacity. *)
Definition emptySlice : Slice.t := Slice.mk 0 0 0.

Definition AddVariable (r : Rule) (count : bool) (collection key : string)
  : Rule :=
  withVariables r
    (Rule.Variables r ++ [RuleVariable.mk count collection key emptySlice]).

(** The loop of [AddNegateVariable]: the first variable on [collection]
    gets [key] appended to its exceptions. *)
Fixpoint addNegateLoop (variables : list RuleVariable.t)
    (collection key : string) : M (list RuleVariable.t) :=
  match variables with
  | [] => ret []
  | vr :: rest =>
      if String.eqb (RuleVariable.Collection vr) collection then
        exceptions <- append (RuleVariable.Exceptions vr) key ;;
        ret (RuleVariable.mk (RuleVariable.Count vr)
               (RuleVariable.Collection vr) (RuleVariable.Key vr) exceptions
               :: rest)
      else
        rest' <- addNegateLoop rest collection key ;;
        ret (vr :: rest')
  end.

Definition AddNegateVariable (r : Rule) (collection key : string) : M Rule :=
  variables <- addNegateLoop (Rule.Variables r) collection key ;;
  ret (withVariables r variables).

(** *** [Rule.executeOperator] *)

Definition executeOperator (r : Rule) (data : string) : M bool :=
  fun s =>
    let p := Operator_Evaluate (RuleOp.Operator (Rule.OperatorObj r)) (tx s) data in
    let result := fst p in
    let negation := RuleOp.Negation (Rule.OperatorObj r) in
    mkOutcome
      (if negation && result then false
       else if negation && negb result then true
       else result)
      (mkState (snd p) (heap s))
      [CallOperator data result].

(** *** [Rule.Evaluate], lines 133-187: the loop over the variables

    The [log.Debug] lines write to the debug log only and are left out. *)

(** Lines 136-144: the exceptions of [v] and the removed targets of its
    collection, in a slice of their own. *)
Definition buildExceptions (v : RuleVariable.t) (ecol : list Target.t)
  : M Slice.t :=
  exceptions <- make (Slice.len (RuleVariable.Exceptions v)) ;;
  copy exceptions (RuleVariable.Exceptions v) ;;;
  for_range ecol
    (fun exceptions c =>
       if String.eqb (Target.Name c) (RuleVariable.Collection v)
       then append exceptions (Target.Key c)
       else ret exceptions)
    exceptions.

(** Lines 148-160: the values of a counting variable. *)
Definition countValues (v : RuleVariable.t) (values : list MatchData.t)
  : list MatchData.t :=
  if negb (String.eqb (RuleVariable.Key v) "") && (len values =? 1) then
    match values !! 0%nat with
    | Some v0 =>
        <[0%nat := MatchData.mk (MatchData.Collection v0) (MatchData.Key v0)
                     (Itoa (len_string (MatchData.Value v0)))]> values
    | None => values
    end
  else
    [MatchData.mk (RuleVariable.Collection v) (RuleVariable.Key v)
       (Itoa (len values))].

(** Lines 170-175: the arguments the operator is run on for one value. *)
Definition transformedArgs (r : Rule) (value : string) : list string :=
  if Rule.MultiMatch r then executeTransformationsMultimatch r value
  else [executeTransformations r value].

(** Lines 177-185. *)
Definition matchArg (r : Rule) (arg : MatchData.t)
    (matchedValues : list MatchData.t) (carg : string)
  : M (list MatchData.t) :=
  b <- executeOperator r carg ;;
  ret (if b then
         matchedValues ++
           [MatchData.mk (MatchData.Collection arg) (MatchData.Key arg) carg]
       else matchedValues).

(** Lines 169-186. *)
Definition matchValue (r : Rule) (matchedValues : list MatchData.t)
    (arg : MatchData.t) : M (list MatchData.t) :=
  for_range (transformedArgs r (MatchData.Value arg)) (matchArg r arg)
    matchedValues.

(** Lines 135-186: the body of the loop for one variable. *)
Definition matchVariable (r : Rule) (ecol : list Target.t)
    (matchedValues : list MatchData.t) (v : RuleVariable.t)
  : M (list MatchData.t) :=
  exceptions <- buildExceptions v ecol ;;
  excs <- read exceptions ;;
  values <- call (CallGetField (RuleVariable.Collection v)
                    (RuleVariable.Key v) excs)
              (fun t => GetField t (RuleVariable.Collection v)
                          (RuleVariable.Key v) excs) ;;
  let values :=
    if RuleVariable.Count v then countValues v values else values in
  if len values =? 0 then
    b <- executeOperator r "" ;;
    ret (if b then matchedValues ++ [MatchData.zero] else matchedValues)
  else
    for_range values (matchValue r) matchedValues.

(** Lines 133-187. *)
Definition matchVariables (r : Rule) : M (list MatchData.t) :=
  ecol <- call (CallGetRemovedTargets (Rule.Id r))
            (fun t => GetRemovedTargets t (Rule.Id r)) ;;
  for_range (Rule.Variables r) (matchVariable r ecol) [].

(** *** [Rule.Evaluate], lines 194-206 and 223-234 *)

Definition evaluateAction (r : Rule) (i : nat) (a : Action) : M unit :=
  call_ (CallAction i a) (Action_Evaluate a r).

(** Lines 197-201. *)
Definition nonDisruptiveActions (r : Rule) : M unit :=
  for_each (Rule.Actions r) 0%nat
    (fun i a =>
       if GetType a =? ACTION_TYPE_NONDISRUPTIVE then evaluateAction r i a
       else ret tt).

(** Lines 229-233. *)
Definition disruptiveActions (r : Rule) : M unit :=
  for_each (Rule.Actions r) 0%nat
    (fun i a =>
       if (GetType a =? ACTION_TYPE_DISRUPTIVE) || (GetType a =? ACTION_TYPE_FLOW)
       then evaluateAction r i a
       else ret tt).

Definition macroExpansion (text : string) : M string :=
  call (CallMacroExpansion text) (fun t => MacroExpansion t text).

(** Lines 194-206: after the variables matched; returns [msgs]. *)
Definition afterVariables (r : Rule) (matchedValues : list MatchData.t)
  : M (list string) :=
  call_ (CallMatchVars matchedValues) (fun t => MatchVars t matchedValues) ;;;
  nonDisruptiveActions r ;;;
  call_ (CallSetCapturable false) (fun t => SetCapturable t false) ;;;
  m <- macroExpansion (Rule.Msg r) ;;
  ret [m].

(** Lines 223-235: after the chain matched. *)
Definition afterChain (r : Rule) (msgs : list string)
    (matchedValues : list MatchData.t) : M (list MatchData.t) :=
  (if Rule.ParentId r =? 0 then
     (if Rule.Log r then
        call_ (CallMatchRule r msgs matchedValues)
          (fun t => MatchRule t r msgs matchedValues)
      else ret tt) ;;;
     disruptiveActions r
   else ret tt) ;;;
  ret matchedValues.

(** [nr.Evaluate(tx)]: the calls of the nested activation are kept apart
    from those of the caller. *)
Definition nested (nr : Rule) (ev : M (list MatchData.t))
  : M (list MatchData.t) :=
  fun s =>
    let o := ev s in
    mkOutcome (value o) (state o) [CallEvaluate nr (trace o) (value o)].

(** Lines 127-132. *)
Definition removed (r : Rule) (s : State) : bool :=
  existsb (fun nid => nid =? Rule.Id r) (RuleRemoveById (tx s)).

(** *** [Rule.Evaluate]

    Lines 207-222, the loop over [r.Chain], [r.Chain.Chain], ...: [prev] is
    the rule whose [Chain] is the next [nr]; [evaluate] is [nr.Evaluate].
    The result is [None] when a link has no match and [Evaluate] returns
    from inside the loop. *)
Fixpoint chainLoop (evaluate : Rule -> M (list MatchData.t)) (prev : Rule)
    (msgs : list string) (matchedValues : list MatchData.t)
  : M (option (list string * list MatchData.t)) :=
  match Rule.Chain prev with
  | None => ret (Some (msgs, matchedValues))
  | Some nr =>
      m <- nested nr (evaluate nr) ;;
      if len m =? 0 then ret None
      else
        e <- macroExpansion (Rule.Msg nr) ;;
        chainLoop evaluate nr (msgs ++ [e]) (matchedValues ++ m)
  end.

Fixpoint Evaluate (r : Rule) : M (list MatchData.t) :=
  fun s =>
    if removed r s then mkOutcome [] s []
    else
      (matchedValues <- matchVariables r ;;
       if len matchedValues =? 0 then ret matchedValues
       else
         msgs <- afterVariables r matchedValues ;;
         chain <- chainLoop Evaluate r msgs matchedValues ;;
         match chain with
         | None => ret []
         | Some (msgs, matchedValues) => afterChain r msgs matchedValues
         end) s.


(** *** Observations on the calls of one activation

    Only the calls of the activation itself are looked at: those of a nested
    [nr.Evaluate(tx)] are inside its [CallEvaluate]. *)

(** [executeOperator] returned true for this call: the operator's result
    with the negation of [r] applied. *)
Definition operatorMatched (r : Rule) (c : Call) : bool :=
  match c with
  | CallOperator _ result => xorb (RuleOp.Negation (Rule.OperatorObj r)) result
  | _ => false
  end.

(** The arguments the operator was run on, in order. *)
Definition operatorArgs (tr : list Call) : list string :=
  omap (fun c => match c with CallOperator data _ => Some data | _ => None end) tr.

(** The invoked actions with their index in [r.Actions], in order. *)
Definition actionCalls (tr : list Call) : list (nat * Action) :=
  omap (fun c => match c with CallAction i a => Some (i, a) | _ => None end) tr.



(** The rules [Evaluate] was called on, with what it returned. *)
Definition nestedCalls (tr : list Call) : list (Rule * list MatchData.t) :=
  omap (fun c => match c with CallEvaluate nr _ m => Some (nr, m) | _ => None end) tr.

Definition matchRuleCalls (tr : list Call)
  : list (Rule * list string * list MatchData.t) :=
  omap (fun c => match c with
                 | CallMatchRule r msgs mv => Some (r, msgs, mv)
                 | _ => None
                 end) tr.

(** The results of the macro expansions, in order. *)
Definition macroResults (tr : list Call) : list string :=
  omap (fun c => match c with
                 | CallMacroExpansion _ res => Some res
                 | _ => None
                 end) tr.

Definition isNonDisruptive (a : Action) : bool :=
  GetType a =? ACTION_TYPE_NONDISRUPTIVE.

Definition isDisruptiveOrFlow (a : Action) : bool :=
  (GetType a =? ACTION_TYPE_DISRUPTIVE) || (GetType a =? ACTION_TYPE_FLOW).

(** The calls [a.Evaluate(r, tx)] for the actions of [l] that satisfy [p],
    in declaration order; [i] is the index of the head of [l]. *)
Fixpoint selectActions (p : Action -> bool) (l : list Action) (i : nat)
  : list Call :=
  match l with
  | [] => []
  | a :: l' =>
      (if p a then [CallAction i a] else []) ++ selectActions p l' (S i)
  end.

(** Calls made by the loop over the variables. *)
Definition variableCall (c : Call) : bool :=
  match c with
  | CallGetRemovedTargets _ _ | CallGetField _ _ _ _ | CallOperator _ _ => true
  | _ => false
  end.

(** Calls made by the loop over the chain. *)
Definition chainCall (c : Call) : bool :=
  match c with
  | CallEvaluate _ _ _ | CallMacroExpansion _ _ => true
  | _ => false
  end.

(** Calls made between the variables and the chain (lines 194-206). *)
Definition actionStageCall (c : Call) : bool :=
  match c with
  | CallMatchVars _ | CallSetCapturable _ | CallMacroExpansion _ _ => true
  | CallAction _ a => isNonDisruptive a
  | _ => false
  end.

(** Calls made after the chain (lines 223-234). *)
Definition finalCall (c : Call) : bool :=
  match c with
  | CallMatchRule _ _ _ => true
  | CallAction _ a => isDisruptiveOrFlow a
  | _ => false
  end.



(** The number of runs of the operator that [executeOperator] reported as
    a match. *)
Definition matchCount (r : Rule) (tr : list Call) : nat :=
  length (List.filter (operatorMatched r) tr).

(** [o] extends the accumulated matches [acc] by one match per successful
    run of the operator, and makes variable calls only. *)
Definition counts (r : Rule) (acc : list MatchData.t)
    (o : Outcome (list MatchData.t)) : Prop :=
  length (value o) = (length acc + matchCount r (trace o))%nat /\
  Forall (fun c => variableCall c = true) (trace o).

(** A computation that calls no collaborator and leaves the transaction
    alone. *)
Definition silent {A} (m : M A) : Prop :=
  forall s, trace (m s) = [] /\ tx (state (m s)) = tx s.

(** The heap [h'] still has the arrays of [h], and those at the addresses
    below [n] with the same content. *)
Definition preserved (n : nat) (h h' : Heap) : Prop :=
  (length h <= length h')%nat /\
  forall a, (a < n)%nat -> h' !! a = h !! a.

(** A computation that leaves the arrays below [n] as they are. *)
Definition framing (n : nat) {A} (m : M A) : Prop :=
  forall s, (n <= length (heap s))%nat ->
            preserved n (heap s) (heap (state (m s))).

(** The backing array of the slice [sl] is in [h], up to its capacity. *)
Definition allocated (h : Heap) (sl : Slice.t) : Prop :=
  (Slice.len sl <= Slice.cap sl)%nat /\
  (Slice.cap sl <= length (default [] (h !! Slice.array sl)))%nat.

(** The keys of the removed targets on the collection of [v]. *)
Definition removedKeys (v : RuleVariable.t) (ecol : list Target.t)
  : list string :=
  map Target.Key
    (List.filter
       (fun c => String.eqb (Target.Name c) (RuleVariable.Collection v)) ecol).

(** The links of the chain of [r]: [r.Chain], [r.Chain.Chain], ... *)
Fixpoint links (r : Rule) : list Rule :=
  match Rule.Chain r with
  | None => []
  | Some nr => nr :: links nr
  end.

(** *** The four stages of an activation

    An activation that is not skipped runs the variables, then (with a
    match) the non-disruptive actions, then the chain, then (with the chain
    matched) the logging and the disruptive actions. *)

Definition stageVariables (r : Rule) (s : State) := matchVariables r s.

Definition stageActions (r : Rule) (s : State) :=
  let o1 := stageVariables r s in afterVariables r (value o1) (state o1).

Definition stageChain (r : Rule) (s : State) :=
  let o1 := stageVariables r s in
  let o2 := stageActions r s in
  chainLoop Evaluate r (value o2) (value o1) (state o2).

Inductive Run (r : Rule) (s : State) : Outcome (list MatchData.t) -> Prop :=
| RunRemoved :
    removed r s = true ->
    Run r s (mkOutcome [] s [])
| RunNoMatch :
    removed r s = false ->
    value (stageVariables r s) = [] ->
    Run r s (mkOutcome [] (state (stageVariables r s))
               (trace (stageVariables r s) ++ []))
| RunChainFailed :
    removed r s = false ->
    value (stageVariables r s) <> [] ->
    value (stageChain r s) = None ->
    Run r s (mkOutcome [] (state (stageChain r s))
               (trace (stageVariables r s) ++ trace (stageActions r s) ++
                trace (stageChain r s) ++ []))
| RunMatched msgs mv :
    removed r s = false ->
    value (stageVariables r s) <> [] ->
    value (stageChain r s) = Some (msgs, mv) ->
    Run r s (mkOutcome mv
               (state (afterChain r msgs mv (state (stageChain r s))))
               (trace (stageVariables r s) ++ trace (stageActions r s) ++
                trace (stageChain r s) ++
                trace (afterChain r msgs mv (state (stageChain r s))))).

End Engine.

Arguments Outcome {H}.
Arguments mkOutcome {H A}.
Arguments value {H A}.
Arguments state {H A}.
Arguments trace {H A}.
Arguments M {H}.
Arguments ret {H A}.
Arguments bind {H A B}.

(** ** The audit logger

    [ConcurrentLogger.WriteAudit] formats a line with [time.Format] and
    [fmt.Sprintf], creates the directory, writes the JSON file with
    [ioutil.WriteFile] and prints the line to the central audit file.  The
    Go library functions are modelled from their documentation; the mutex is
    not modelled (one call at a time). *)

(** *** [time]: instants and layouts *)
Module Time.

(** An instant with the offset of its location, in seconds east of UTC. *)
Record t : Type := mk { unixSec : Z; nsec : Z; offset : Z }.

(** [time.Unix(sec, nsec)], in the local location [local]. *)
Definition Unix (local : Z -> Z) (sec nsec : Z) : t :=
  let n := Z.quot nsec 1000000000 in
  let sec := sec + n in
  let nsec := nsec - n * 1000000000 in
  let sec := if nsec <? 0 then sec - 1 else sec in
  let nsec := if nsec <? 0 then nsec + 1000000000 else nsec in
  mk sec nsec (local sec).

(** Seconds of the wall clock since the epoch. *)
Definition wall (x : t) : Z := unixSec x + offset x.

Definition Hour (x : t) : Z := (wall x mod 86400) / 3600.
Definition Minute (x : t) : Z := (wall x mod 3600) / 60.
Definition Second (x : t) : Z := wall x mod 60.

(** The civil date of the day [z] days after 1970-01-01 in the proleptic
    Gregorian calendar: (year, month, day). *)
Definition civil (days : Z) : Z * Z * Z :=
  let z := days + 719468 in
  let era := z / 146097 in
  let doe := z - era * 146097 in
  let yoe := (doe - doe / 1460 + doe / 36524 - doe / 146096) / 365 in
  let doy := doe - (365 * yoe + yoe / 4 - yoe / 100) in
  let mp := (5 * doy + 2) / 153 in
  let d := doy - (153 * mp + 2) / 5 + 1 in
  let m := if mp <? 10 then mp + 3 else mp - 9 in
  let y := yoe + era * 400 + (if m <=? 2 then 1 else 0) in
  (y, m, d).

Definition Year (x : t) : Z := fst (fst (civil (wall x / 86400))).
Definition Month (x : t) : Z := snd (fst (civil (wall x / 86400))).
Definition Day (x : t) : Z := snd (civil (wall x / 86400)).

Definition longMonthNames : list string :=
  ["January"; "February"; "March"; "April"; "May"; "June"; "July";
   "August"; "September"; "October"; "November"; "December"].

(** [Month.String()] *)
Definition monthName (m : Z) : string :=
  nth (Z.to_nat (m - 1)) longMonthNames "".

(** The elements of a layout that this model recognises. *)
Inductive std : Type :=
| stdLongMonth | stdMonth | stdNumMonth | stdZeroMonth
| stdDay | stdZeroDay
| stdHour | stdHour12 | stdZeroHour12
| stdMinute | stdZeroMinute
| stdSecond | stdZeroSecond
| stdLongYear | stdYear
| stdNumSecondsTz | stdNumColonSecondsTZ | stdNumTZ | stdNumColonTZ
| stdNumShortTZ.

Definition isLower (c : ascii) : bool :=
  (97 <=? Z.of_N (N_of_ascii c)) && (Z.of_N (N_of_ascii c) <=? 122).

Definition startsWithLowerCase (s : string) : bool :=
  match s with
  | EmptyString => false
  | String c _ => isLower c
  end.

Definition dropString (n : nat) (s : string) : string :=
  String.substring n (String.length s - n) s.

(** The cases of [nextStdChunk] for a layout element that starts at the
    head of [layout]: the element and the rest of the layout.  The cases
    for [M] (weekday, zone name), [_], [P], [p], [Z] and fractions of a
    second are left out: a layout with these is outside the model. *)
Definition stdAt (layout : string) : option (std * string) :=
  match layout with
  | EmptyString => None
  | String c rest =>
      if Ascii.eqb c "J" then
        if String.prefix "January" layout
        then Some (stdLongMonth, dropString 7 layout)
        else if String.prefix "Jan" layout &&
                negb (startsWithLowerCase (dropString 3 layout))
        then Some (stdMonth, dropString 3 layout)
        else None
      else if Ascii.eqb c "0" then
        if String.prefix "01" layout then Some (stdZeroMonth, dropString 2 layout)
        else if String.prefix "02" layout then Some (stdZeroDay, dropString 2 layout)
        else if String.prefix "03" layout then Some (stdZeroHour12, dropString 2 layout)
        else if String.prefix "04" layout then Some (stdZeroMinute, dropString 2 layout)
        else if String.prefix "05" layout then Some (stdZeroSecond, dropString 2 layout)
        else if String.prefix "06" layout then Some (stdYear, dropString 2 layout)
        else None
      else if Ascii.eqb c "1" then
        if String.prefix "15" layout then Some (stdHour, dropString 2 layout)
        else Some (stdNumMonth, rest)
      else if Ascii.eqb c "2" then
        if String.prefix "2006" layout then Some (stdLongYear, dropString 4 layout)
        else Some (stdDay, rest)
      else if Ascii.eqb c "3" then Some (stdHour12, rest)
      else if Ascii.eqb c "4" then Some (stdMinute, rest)
      else if Ascii.eqb c "5" then Some (stdSecond, rest)
      else if Ascii.eqb c "-" then
        if String.prefix "-070000" layout
        then Some (stdNumSecondsTz, dropString 7 layout)
        else if String.prefix "-07:00:00" layout
        then Some (stdNumColonSecondsTZ, dropString 9 layout)
        else if String.prefix "-0700" layout
        then Some (stdNumTZ, dropString 5 layout)
        else if String.prefix "-07:00" layout
        then Some (stdNumColonTZ, dropString 6 layout)
        else if String.prefix "-07" layout
        then Some (stdNumShortTZ, dropString 3 layout)
        else None
      else None
  end.

(** [nextStdChunk]: the text before the first element, the element, and
    the layout after it. *)
Fixpoint nextStdChunk (layout : string) : string * option std * string :=
  match stdAt layout with
  | Some (s, suffix) => (EmptyString, Some s, suffix)
  | None =>
      match layout with
      | EmptyString => (EmptyString, None, EmptyString)
      | String c rest =>
          let r := nextStdChunk rest in
          (String c (fst (fst r)), snd (fst r), snd r)
      end
  end.

(** [appendInt]: decimal, padded with zeros to [width] digits. *)
Definition appendInt (x : Z) (width : nat) : string :=
  let digits := Itoa (Z.abs x) in
  let padded :=
    String.string_of_list_ascii
      (replicate (width - String.length digits) "0"%char) +:+ digits in
  if x <? 0 then String "-" padded else padded.

Definition zone (x : t) (colon seconds short : bool) : string :=
  let z := Z.quot (offset x) 60 in
  let sign := if z <? 0 then "-" else "+" in
  let z := Z.abs z in
  sign +:+ appendInt (Z.quot z 60) 2 +:+
  (if short then ""
   else (if colon then ":" else "") +:+ appendInt (Z.rem z 60) 2 +:+
        (if seconds
         then (if colon then ":" else "") +:+
              appendInt (Z.rem (Z.abs (offset x)) 60) 2
         else "")).

(** The text of one layout element for the instant [x]. *)
Definition render (x : t) (s : std) : string :=
  match s with
  | stdYear => appendInt (Z.rem (Z.abs (Year x)) 100) 2
  | stdLongYear => appendInt (Year x) 4
  | stdMonth => String.substring 0 3 (monthName (Month x))
  | stdLongMonth => monthName (Month x)
  | stdNumMonth => appendInt (Month x) 0
  | stdZeroMonth => appendInt (Month x) 2
  | stdDay => appendInt (Day x) 0
  | stdZeroDay => appendInt (Day x) 2
  | stdHour => appendInt (Hour x) 2
  | stdHour12 =>
      appendInt (if Hour x mod 12 =? 0 then 12 else Hour x mod 12) 0
  | stdZeroHour12 =>
      appendInt (if Hour x mod 12 =? 0 then 12 else Hour x mod 12) 2
  | stdMinute => appendInt (Minute x) 0
  | stdZeroMinute => appendInt (Minute x) 2
  | stdSecond => appendInt (Second x) 0
  | stdZeroSecond => appendInt (Second x) 2
  | stdNumSecondsTz => zone x false true false
  | stdNumColonSecondsTZ => zone x true true false
  | stdNumTZ => zone x false false false
  | stdNumColonTZ => zone x true false false
  | stdNumShortTZ => zone x false false true
  end.

(** The loop of [Time.AppendFormat]; every round with an element consumes
    a part of the layout, so [n] rounds suffice for a layout of less than
    [n] characters. *)
Fixpoint formatLoop (n : nat) (x : t) (layout : string) : string :=
  match n with
  | O => EmptyString
  | S n' =>
      let r := nextStdChunk layout in
      fst (fst r) +:+
      match snd (fst r) with
      | None => EmptyString
      | Some s => render x s +:+ formatLoop n' x (snd r)
      end
  end.

(** [t.Format(layout)] *)
Definition Format (x : t) (layout : string) : string :=
  formatLoop (S (String.length layout)) x layout.

End Time.

(** *** [fmt.Sprintf] and [strconv.Quote] *)

(** The double quote character. *)
Definition dquote : ascii := ascii_of_nat 34.

Definition backslash : ascii := ascii_of_nat 92.

(** A byte of a string as a number, and back. *)
Definition byteOf (c : ascii) : Z := Z.of_N (N_of_ascii c).

Definition charOf (b : Z) : ascii := ascii_of_N (Z.to_N b).

(** [lowerhex[n]] of [strconv]. *)
Definition lowerhex (n : Z) : ascii :=
  if n <? 10 then charOf (48 + n) else charOf (87 + n).

(** The part of [unicode/utf8] that [strconv.Quote] uses. *)
Module utf8.

Definition RuneError : Z := 65533.
Definition RuneSelf : Z := 128.
Definition MaxRune : Z := 1114111.
Definition surrogateMin : Z := 55296.
Definition surrogateMax : Z := 57343.

(** The tables [first] and [acceptRanges]: for the first byte of an
    encoding of two to four bytes, its size and the bytes accepted in the
    second place; [None] for every other byte. *)
Definition first (s0 : Z) : option (nat * Z * Z) :=
  if s0 <? 194 then None
  else if s0 <? 224 then Some (2%nat, 128, 191)
  else if s0 =? 224 then Some (3%nat, 160, 191)
  else if s0 =? 237 then Some (3%nat, 128, 159)
  else if s0 <? 240 then Some (3%nat, 128, 191)
  else if s0 =? 240 then Some (4%nat, 144, 191)
  else if s0 <? 244 then Some (4%nat, 128, 191)
  else if s0 =? 244 then Some (4%nat, 128, 143)
  else None.

(** A continuation byte is outside [locb..hicb]. *)
Definition notContinuation (b : Z) : bool := (b <? 128) || (191 <? b).

(** [utf8.DecodeRuneInString]: the rune at the start of [s] and the
    number of its bytes; [(RuneError, 1)] for an encoding that is not
    valid. *)
Definition DecodeRuneInString (s : string) : Z * nat :=
  match s with
  | EmptyString => (RuneError, 0%nat)
  | String c0 t0 =>
      let s0 := byteOf c0 in
      if s0 <? RuneSelf then (s0, 1%nat)
      else
        match first s0 with
        | None => (RuneError, 1%nat)
        | Some (sz, lo, hi) =>
            if (String.length s <? sz)%nat then (RuneError, 1%nat)
            else
              match t0 with
              | EmptyString => (RuneError, 1%nat)
              | String c1 t1 =>
                  let s1 := byteOf c1 in
                  if (s1 <? lo) || (hi <? s1) then (RuneError, 1%nat)
                  else if (sz <=? 2)%nat then
                    (Z.lor (Z.shiftl (Z.land s0 31) 6) (Z.land s1 63), 2%nat)
                  else
                    match t1 with
                    | EmptyString => (RuneError, 1%nat)
                    | String c2 t2 =>
                        let s2 := byteOf c2 in
                        if notContinuation s2 then (RuneError, 1%nat)
                        else if (sz <=? 3)%nat then
                          (Z.lor (Z.shiftl (Z.land s0 15) 12)
                             (Z.lor (Z.shiftl (Z.land s1 63) 6)
                                (Z.land s2 63)), 3%nat)
                        else
                          match t2 with
                          | EmptyString => (RuneError, 1%nat)
                          | String c3 _ =>
                              let s3 := byteOf c3 in
                              if notContinuation s3 then (RuneError, 1%nat)
                              else
                                (Z.lor (Z.shiftl (Z.land s0 7) 18)
                                   (Z.lor (Z.shiftl (Z.land s1 63) 12)
                                      (Z.lor (Z.shiftl (Z.land s2 63) 6)
                                         (Z.land s3 63))), 4%nat)
                          end
                    end
              end
        end
  end.

(** [utf8.ValidRune] *)
Definition ValidRune (r : Z) : bool :=
  ((0 <=? r) && (r <? surrogateMin)) || ((surrogateMax <? r) && (r <=? MaxRune)).

(** The bytes of an encoding of three bytes. *)
Definition encode3 (r : Z) : string :=
  String (charOf (Z.lor 224 (Z.land (Z.shiftr r 12) 255)))
    (String (charOf (Z.lor 128 (Z.land (Z.shiftr r 6) 63)))
       (String (charOf (Z.lor 128 (Z.land r 63))) EmptyString)).

(** [utf8.AppendRune] to an empty buffer.  The comparisons of the source
    are on [uint32(r)], so a negative rune is above [MaxRune]. *)
Definition AppendRune (r : Z) : string :=
  if (0 <=? r) && (r <=? 127) then String (charOf r) EmptyString
  else if (0 <=? r) && (r <=? 2047) then
    String (charOf (Z.lor 192 (Z.land (Z.shiftr r 6) 255)))
      (String (charOf (Z.lor 128 (Z.land r 63))) EmptyString)
  else if (r <? 0) || (MaxRune <? r)
          || ((surrogateMin <=? r) && (r <=? surrogateMax))
  then encode3 RuneError
  else if r <=? 65535 then encode3 r
  else
    String (charOf (Z.lor 240 (Z.land (Z.shiftr r 18) 255)))
      (String (charOf (Z.lor 128 (Z.land (Z.shiftr r 12) 63)))
         (String (charOf (Z.lor 128 (Z.land (Z.shiftr r 6) 63)))
            (String (charOf (Z.lor 128 (Z.land r 63))) EmptyString))).

End utf8.

(** What [strconv.Quote] takes from the Go release.  [printTable] is
    [strconv.IsPrint] above U+00FF: the tables [isPrint16],
    [isNotPrint16], [isPrint32] and [isNotPrint32], which hold the
    letters, marks, numbers, punctuation and symbols of the Unicode
    version of the release.  [delAsHex] tells how DEL is written: from
    Go 1.20 in hexadecimal as the other control characters, before by
    number. *)
Class GoRelease : Type := { printTable : Z -> bool; delAsHex : bool }.

Section Quoting.
Context {G : GoRelease}.

(** [strconv.IsPrint] *)
Definition IsPrint (r : Z) : bool :=
  if r <=? 255 then
    if (32 <=? r) && (r <=? 126) then true
    else if (161 <=? r) && (r <=? 255) then negb (r =? 173)
    else false
  else printTable r.

(** The digits of [r] in base 16 from the shift [4 * n - 4] down to 0:
    the loop [for s := ...; s >= 0; s -= 4] of [appendEscapedRune]. *)
Fixpoint hexDigits (n : nat) (r : Z) : string :=
  match n with
  | O => EmptyString
  | S n' =>
      String (lowerhex (Z.land (Z.shiftr r (4 * Z.of_nat n')) 15))
        (hexDigits n' r)
  end.

(** [strconv.appendEscapedRune] to an empty buffer, with the double quote
    as [quote] and neither [ASCIIonly] nor [graphicOnly].  The case of a
    rune that is not valid is not reached from [Quote], whose runes are
    decoded ones. *)
Definition appendEscapedRune (r : Z) : string :=
  if (r =? 34) || (r =? 92) then
    String backslash (String (charOf r) EmptyString)
  else if IsPrint r then utf8.AppendRune r
  else if r =? 7 then String backslash "a"
  else if r =? 8 then String backslash "b"
  else if r =? 12 then String backslash "f"
  else if r =? 10 then String backslash "n"
  else if r =? 13 then String backslash "r"
  else if r =? 9 then String backslash "t"
  else if r =? 11 then String backslash "v"
  else if (r <? 32) || ((r =? 127) && delAsHex) then
    String backslash (String "x" (hexDigits 2 (Z.land r 255)))
  else if negb (utf8.ValidRune r) then
    String backslash (String "u" (hexDigits 4 utf8.RuneError))
  else if r <? 65536 then String backslash (String "u" (hexDigits 4 r))
  else String backslash (String "U" (hexDigits 8 r)).

(** The loop of [strconv.appendQuotedWith]: [skip] counts the bytes of
    [s] that belong to the rune just written, [s = s[width:]]. *)
Fixpoint quoteLoop (skip : nat) (s : string) : string :=
  match s with
  | EmptyString => EmptyString
  | String c s' =>
      match skip with
      | S skip' => quoteLoop skip' s'
      | O =>
          let r0 := byteOf c in
          let (r, width) :=
            if utf8.RuneSelf <=? r0 then utf8.DecodeRuneInString s
            else (r0, 1%nat) in
          (if (width =? 1)%nat && (r =? utf8.RuneError) then
             String backslash (String "x" (hexDigits 2 r0))
           else appendEscapedRune r)
          +:+ quoteLoop (width - 1) s'
      end
  end.

(** [strconv.Quote], which the verb [%q] applies to a string: the text
    between double quotes, with a backslash before a double quote and a
    backslash, a printable rune as it is, a control character by its name
    or in hexadecimal, a byte that is not part of a valid encoding in
    hexadecimal, and any other rune by its number. *)
Definition Quote (s : string) : string :=
  String dquote (quoteLoop 0 s +:+ String dquote EmptyString).

(** An operand of [Sprintf]. *)
Inductive Arg : Type :=
| ArgString (s : string)
| ArgInt (n : Z).

(** One operand under one verb; a verb that does not fit the operand gives
    the marker of Go for a bad verb. *)
Definition formatArg (verb : ascii) (a : Arg) : string :=
  match a with
  | ArgString s =>
      if Ascii.eqb verb "s" then s
      else if Ascii.eqb verb "q" then Quote s
      else "%!" +:+ String verb "(string=" +:+ s +:+ ")"
  | ArgInt n =>
      if Ascii.eqb verb "d" then Itoa n
      else "%!" +:+ String verb "(int=" +:+ Itoa n +:+ ")"
  end.

(** [fmt.Sprintf] for formats made of text and the plain verbs [%s], [%d]
    and [%q], with one operand per verb. *)
Fixpoint Sprintf (format : string) (args : list Arg) : string :=
  match format with
  | EmptyString => EmptyString
  | String c EmptyString => String c EmptyString
  | String c (String verb rest as tail) =>
      if Ascii.eqb c "%" then
        match args with
        | a :: args' => formatArg verb a +:+ Sprintf rest args'
        | [] => "%!" +:+ String verb "(MISSING)" +:+ Sprintf rest []
        end
      else String c (Sprintf tail args)
  end.

End Quoting.

(** Text of ASCII bytes only. *)
Fixpoint isASCII (s : string) : bool :=
  match s with
  | EmptyString => true
  | String c s' => (byteOf c <? 128) && isASCII s'
  end.

(** The string of the bytes [bs]. *)
Definition bytes (bs : list Z) : string :=
  fold_right (fun b s => String (charOf b) s) EmptyString bs.

(** *** Files *)

(** A Go [error]; [None] is [nil]. *)
Abbreviation error := (option string).

Module FS.

Record file : Type := mkFile { content : string; mode : Z }.

(** The regular files by path, and the directories that exist. *)
Record t : Type := mk { files : gmap string file; dirs : gset string }.

End FS.

(** What the operating system does to the calls of one [WriteAudit]: the
    error of [MkdirAll] and of opening the JSON file, if any; for the write
    of the JSON file, the error and the number of bytes written before it;
    the error of closing; the number of bytes of the line that reach the
    central file when printing fails (the logger drops that error); and the
    file mode creation mask of the process. *)
Record Faults : Type := mkFaults {
  mkdirAllError : error;
  openError : error;
  writeError : option (nat * string);
  closeError : error;
  printError : option nat;
  umask : Z
}.

Definition noFaults : Faults := mkFaults None None None None None 18.

(** [os.MkdirAll(path, perm)] *)
Definition MkdirAll (k : Faults) (path : string) (perm : Z) (fs : FS.t)
  : error * FS.t :=
  match mkdirAllError k with
  | Some e => (Some e, fs)
  | None => (None, FS.mk (FS.files fs) ({[path]} ∪ FS.dirs fs))
  end.

(** [ioutil.WriteFile(filename, data, perm)]: open with
    [O_WRONLY|O_CREATE|O_TRUNC], write, close.  A file that exists keeps
    its mode and loses its content when it is opened. *)
Definition WriteFile (k : Faults) (filename data : string) (perm : Z)
    (fs : FS.t) : error * FS.t :=
  match openError k with
  | Some e => (Some e, fs)
  | None =>
      let mode :=
        match FS.files fs !! filename with
        | Some f => FS.mode f
        | None => Z.land perm (Z.lnot (umask k))
        end in
      let written :=
        match writeError k with
        | Some (n, _) => String.substring 0 n data
        | None => data
        end in
      let err :=
        match writeError k with
        | Some (_, e) => Some e
        | None => closeError k
        end in
      (err, FS.mk (<[filename := FS.mkFile written mode]> (FS.files fs))
              (FS.dirs fs))
  end.

Definition endsWithNewline (s : string) : bool :=
  match String.get (String.length s - 1) s with
  | Some c => Ascii.eqb c (ascii_of_nat 10)
  | None => false
  end.

Definition newline : string := String (ascii_of_nat 10) EmptyString.

(** The logger after [Init]: the names it was given.  Its [auditlogger]
    writes to the central file, which [Init] has opened for appending. *)
Module ConcurrentLogger.
Record t : Type := mk { file : string; directory : string }.
End ConcurrentLogger.

(** The files, and what the logger has appended to its central file. *)
Record World : Type := mkWorld { fs : FS.t; printed : string }.

(** [l.auditlogger.Print(str)]: the text and a newline, unless it ends with
    one, appended to the central file. *)
Definition Print (k : Faults) (str : string) (w : World) : World :=
  let line := if endsWithNewline str then str else str +:+ newline in
  let out :=
    match printError k with
    | Some n => String.substring 0 n line
    | None => line
    end in
  mkWorld (fs w) (printed w +:+ out).

(** *** The transaction as the logger reads it *)
Class AuditView (Tx : Type) : Type := {
  Collection : Type;
  Timestamp : Tx -> Z;
  TxId : Tx -> string;
  GetCollection : Tx -> string -> Collection;
  GetFirstString : Collection -> string -> string;
  GetFirstInt : Collection -> string -> Z;
  GetFirstInt64 : Collection -> string -> Z;
  GetAuditPath : Tx -> string * string;
  ToAuditJson : Tx -> string;
  (* Go runtime and library *)
  Local : Z -> Z;
  path_Join : string -> string -> string
}.

Section Audit.
Context {Tx : Type} `{V : AuditView Tx} {G : GoRelease}.

Definition auditLayout : string := "02/Jan/2006:15:04:20 -0700".

Definition auditFormat : string :=
  "%s %s - - [%s] %q %d %d %q %q %s %q %s %d %d".

(** Lines 52-66 of [WriteAudit]: the concise line. *)
Definition auditLine (tx : Tx) : string :=
  let t := Time.Unix Local 0 (Timestamp tx) in
  let ts := Time.Format t auditLayout in
  let ipsource := GetFirstString (GetCollection tx "remote_addr") "" in
  let ipserver := "-" in
  let requestline := GetFirstString (GetCollection tx "request_line") "" in
  let responsecode := GetFirstInt (GetCollection tx "response_status") "" in
  let responselength :=
    GetFirstInt64 (GetCollection tx "response_content_length") "" in
  let requestlength :=
    GetFirstInt64 (GetCollection tx "request_body_length") "" in
  let filepath := path_Join (fst (GetAuditPath tx)) (snd (GetAuditPath tx)) in
  Sprintf auditFormat
    [ArgString ipsource; ArgString ipserver; ArgString ts;
     ArgString requestline; ArgInt responsecode; ArgInt responselength;
     ArgString "-"; ArgString "-"; ArgString (TxId tx); ArgString "-";
     ArgString filepath; ArgInt 0; ArgInt requestlength].

(** The path of the JSON file. *)
Definition auditFile (tx : Tx) : string :=
  path_Join (fst (GetAuditPath tx)) (snd (GetAuditPath tx)).

(** [ConcurrentLogger.WriteAudit] *)
Definition WriteAudit (k : Faults) (l : ConcurrentLogger.t) (tx : Tx)
    (w : World) : error * World :=
  let str := auditLine tx in
  let logdir := fst (GetAuditPath tx) in
  let filepath := auditFile tx in
  match MkdirAll k logdir 511 (fs w) with
  | (Some e, fs1) => (Some e, mkWorld fs1 (printed w))
  | (None, fs1) =>
      let jsdata := ToAuditJson tx in
      match WriteFile k filepath jsdata 384 fs1 with
      | (Some e, fs2) => (Some e, mkWorld fs2 (printed w))
      | (None, fs2) => (None, Print k str (mkWorld fs2 (printed w)))
      end
  end.

(** The content of a file, if it exists. *)
Definition contentOf (f : FS.t) (path : string) : option string :=
  FS.content <$> FS.files f !! path.

(** Atomic writing of the JSON file, as the design document has it: after
    [WriteAudit], whatever the operating system did, the file holds the
    whole document or is what it was before. *)
Definition jsonAtomic (k : Faults) (l : ConcurrentLogger.t) (tx : Tx)
    (w : World) : Prop :=
  let w' := snd (WriteAudit k l tx w) in
  contentOf (fs w') (auditFile tx) = Some (ToAuditJson tx) \/
  FS.files (fs w') !! auditFile tx = FS.files (fs w) !! auditFile tx.

(** No error of the operating system on the way to the JSON file. *)
Definition jsonFaultFree (k : Faults) : Prop :=
  mkdirAllError k = None /\ openError k = None /\
  writeError k = None /\ closeError k = None.

(** The layout that renders the seconds. *)
Definition secondsLayout : string := "02/Jan/2006:15:04:05 -0700".

End Audit.

(** ** [transformations.Md5]

    [crypto/md5] computes the MD5 message digest of RFC 1321.  Words are 32
    bits wide and held in [Z]; additions wrap modulo [2^32]; bytes are held
    in [Z] as well. *)
Module MD5.

Definition wrap (x : Z) : Z := x mod 2 ^ 32.

Definition add32 (x y : Z) : Z := wrap (x + y).

Definition not32 (x : Z) : Z := Z.lxor x (2 ^ 32 - 1).

(** Rotation to the left of a 32-bit word. *)
Definition rotl (x n : Z) : Z :=
  Z.lor (wrap (Z.shiftl x n)) (Z.shiftr x (32 - n)).

(** The shift of each of the 64 steps. *)
Definition shifts : list Z :=
  [7; 12; 17; 22; 7; 12; 17; 22; 7; 12; 17; 22; 7; 12; 17; 22;
   5; 9; 14; 20; 5; 9; 14; 20; 5; 9; 14; 20; 5; 9; 14; 20;
   4; 11; 16; 23; 4; 11; 16; 23; 4; 11; 16; 23; 4; 11; 16; 23;
   6; 10; 15; 21; 6; 10; 15; 21; 6; 10; 15; 21; 6; 10; 15; 21].

(** [floor(2^32 * abs(sin(i + 1)))] for [i] from 0 to 63. *)
Definition table : list Z :=
  [3614090360; 3905402710; 606105819; 3250441966;
   4118548399; 1200080426; 2821735955; 4249261313;
   1770035416; 2336552879; 4294925233; 2304563134;
   1804603682; 4254626195; 2792965006; 1236535329;
   4129170786; 3225465664; 643717713; 3921069994;
   3593408605; 38016083; 3634488961; 3889429448;
   568446438; 3275163606; 4107603335; 1163531501;
   2850285829; 4243563512; 1735328473; 2368359562;
   4294588738; 2272392833; 1839030562; 4259657740;
   2763975236; 1272893353; 4139469664; 3200236656;
   681279174; 3936430074; 3572445317; 76029189;
   3654602809; 3873151461; 530742520; 3299628645;
   4096336452; 1126891415; 2878612391; 4237533241;
   1700485571; 2399980690; 4293915773; 2240044497;
   1873313359; 4264355552; 2734768916; 1309151649;
   4149444226; 3174756917; 718787259; 3951481745].

Definition A0 : Z := 0x67452301.
Definition B0 : Z := 0xefcdab89.
Definition C0 : Z := 0x98badcfe.
Definition D0 : Z := 0x10325476.

Record digest : Type := mkDigest { a : Z; b : Z; c : Z; d : Z }.

(** The auxiliary function of step [i] and the index of the message word
    it uses. *)
Definition mix (i : Z) (x y z : Z) : Z :=
  if i <? 16 then Z.lor (Z.land x y) (Z.land (not32 x) z)
  else if i <? 32 then Z.lor (Z.land x z) (Z.land y (not32 z))
  else if i <? 48 then Z.lxor (Z.lxor x y) z
  else Z.lxor y (Z.lor x (not32 z)).

Definition wordIndex (i : Z) : Z :=
  if i <? 16 then i
  else if i <? 32 then (5 * i + 1) mod 16
  else if i <? 48 then (3 * i + 5) mod 16
  else (7 * i) mod 16.

Definition step (m : list Z) (s : digest) (i : nat) : digest :=
  let iz := Z.of_nat i in
  let f := add32 (add32 (add32 (mix iz (b s) (c s) (d s)) (a s))
                    (nth i table 0))
             (nth (Z.to_nat (wordIndex iz)) m 0) in
  mkDigest (d s) (add32 (b s) (rotl f (nth i shifts 0))) (b s) (c s).

(** A little-endian 32-bit word from four bytes. *)
Definition word (bs : list Z) : Z :=
  nth 0 bs 0 + 2 ^ 8 * nth 1 bs 0 + 2 ^ 16 * nth 2 bs 0 + 2 ^ 24 * nth 3 bs 0.

(** The [n] words of a block. *)
Fixpoint words (n : nat) (bs : list Z) : list Z :=
  match n with
  | O => []
  | S n' => word (take 4 bs) :: words n' (drop 4 bs)
  end.

(** One 64-byte block. *)
Definition block (s : digest) (bs : list Z) : digest :=
  let m := words 16 bs in
  let t := fold_left (step m) (seq 0 64) s in
  mkDigest (add32 (a s) (a t)) (add32 (b s) (b t)) (add32 (c s) (c t))
    (add32 (d s) (d t)).

(** [n] blocks. *)
Fixpoint blocks (n : nat) (s : digest) (bs : list Z) : digest :=
  match n with
  | O => s
  | S n' => blocks n' (block s (take 64 bs)) (drop 64 bs)
  end.

(** The [n] low bytes of [x], least significant first. *)
Fixpoint bytesLE (n : nat) (x : Z) : list Z :=
  match n with
  | O => []
  | S n' => x mod 256 :: bytesLE n' (x / 256)
  end.

(** The message, a one bit, zeros up to 56 modulo 64, and the length in
    bits modulo [2^64]. *)
Definition pad (msg : list Z) : list Z :=
  let n := Z.of_nat (length msg) in
  let zeros := Z.to_nat ((55 - n) mod 64) in
  msg ++ [128] ++ replicate zeros 0 ++ bytesLE 8 ((8 * n) mod 2 ^ 64).

(** [h.Sum(nil)] after the message was written to a new hash. *)
Definition Sum (msg : list Z) : list Z :=
  let p := pad msg in
  let s := blocks (length p / 64) (mkDigest A0 B0 C0 D0) p in
  bytesLE 4 (a s) ++ bytesLE 4 (b s) ++ bytesLE 4 (c s) ++ bytesLE 4 (d s).

End MD5.

Definition bytes_of_string (s : string) : list Z :=
  map (fun ch => Z.of_N (N_of_ascii ch)) (String.list_ascii_of_string s).

Definition string_of_bytes (bs : list Z) : string :=
  String.string_of_list_ascii (map (fun x => ascii_of_N (Z.to_N x)) bs).

(** [func Md5(data string) string]: the raw digest, as a string. *)
Definition Md5 (data : string) : string :=
  string_of_bytes (MD5.Sum (bytes_of_string data)).

Definition hexDigit (x : Z) : ascii :=
  nth (Z.to_nat x)
    (String.list_ascii_of_string "0123456789abcdef") "0"%char.

(** [fmt.Sprintf("%x", s)]: two lower-case hexadecimal digits per byte, the
    encoding that the source has in a comment. *)
Definition hexEncode (s : string) : string :=
  String.string_of_list_ascii
    (flat_map (fun x => [hexDigit (x / 16); hexDigit (x mod 16)])
       (bytes_of_string s)).

(** ** A small host

    A transaction store, three operators and four actions in the style of the
    ModSecurity rule language, used to run the engine on concrete rules. *)
Module Demo.

Inductive operator : Type :=
| Streq (s : string)
| Gt (n : Z)
| Contains (s : string)
| UnconditionalMatch.

Inductive action : Type :=
| SetVar (key val : string)
| Deny (status : Z)
| SkipAfter (marker : string)
| Tag (t : string).

Abbreviation rule := (Rule.t action operator).

Record transaction : Type := mkTx {
  collections : list (string * list (string * string));
  removed_rule_ids : list Z;
  removed_targets : list (Z * Target.t);
  matched_vars : list MatchData.t;
  matched_rules : list (rule * list string * list MatchData.t);
  interruption : option (string * Z * Z);
  skip_after : string;
  capturable : bool
}.

Definition getType (a : action) : Z :=
  match a with
  | SetVar _ _ => ACTION_TYPE_NONDISRUPTIVE
  | Deny _ => ACTION_TYPE_DISRUPTIVE
  | SkipAfter _ => ACTION_TYPE_FLOW
  | Tag _ => ACTION_TYPE_METADATA
  end.

Fixpoint contains (needle hay : string) : bool :=
  String.prefix needle hay ||
  match hay with
  | EmptyString => false
  | String _ hay' => contains needle hay'
  end.

Definition operatorEvaluate (o : operator) (t : transaction) (data : string)
  : bool * transaction :=
  match o with
  | Streq s => (String.eqb data s, t)
  | Gt n => (match Atoi data with Some k => n <? k | None => false end, t)
  | Contains s => (contains s data, t)
  | UnconditionalMatch => (true, t)
  end.

Definition entries (t : transaction) (name : string) : list (string * string) :=
  match find (fun c => String.eqb (fst c) name) (collections t) with
  | Some c => snd c
  | None => []
  end.

Definition setEntries (t : transaction) (name : string)
    (es : list (string * string)) : transaction :=
  mkTx ((name, es) ::
          filter (fun c => negb (String.eqb (fst c) name)) (collections t))
    (removed_rule_ids t) (removed_targets t) (matched_vars t)
    (matched_rules t) (interruption t) (skip_after t) (capturable t).

Definition actionEvaluate (a : action) (r : rule) (t : transaction)
  : transaction :=
  match a with
  | SetVar k v => setEntries t "tx" ((k, v) :: entries t "tx")
  | Deny status =>
      mkTx (collections t) (removed_rule_ids t) (removed_targets t)
        (matched_vars t) (matched_rules t)
        (match interruption t with
         | Some i => Some i
         | None => Some ("deny", status, Rule.Id r)
         end)
        (skip_after t) (capturable t)
  | SkipAfter m =>
      mkTx (collections t) (removed_rule_ids t) (removed_targets t)
        (matched_vars t) (matched_rules t) (interruption t) m (capturable t)
  | Tag _ => t
  end.

Definition getRemovedTargets (t : transaction) (id : Z)
  : list Target.t * transaction :=
  (map snd (filter (fun p => fst p =? id) (removed_targets t)), t).

Definition getField (t : transaction) (collection key : string)
    (exceptions : list string) : list MatchData.t * transaction :=
  (map (fun e => MatchData.mk collection (fst e) (snd e))
     (filter (fun e =>
                (String.eqb key "" || String.eqb (fst e) key) &&
                negb (existsb (String.eqb (fst e)) exceptions))
        (entries t collection)), t).

Definition matchVars (t : transaction) (mv : list MatchData.t) : transaction :=
  mkTx (collections t) (removed_rule_ids t) (removed_targets t) mv
    (matched_rules t) (interruption t) (skip_after t) (capturable t).

Definition setCapturable (t : transaction) (b : bool) : transaction :=
  mkTx (collections t) (removed_rule_ids t) (removed_targets t)
    (matched_vars t) (matched_rules t) (interruption t) (skip_after t) b.

Definition matchRule (t : transaction) (r : rule) (msgs : list string)
    (mv : list MatchData.t) : transaction :=
  mkTx (collections t) (removed_rule_ids t) (removed_targets t)
    (matched_vars t) (matched_rules t ++ [(r, msgs, mv)]) (interruption t)
    (skip_after t) (capturable t).

#[export] Instance host : Host := {|
  Transaction := transaction;
  Action := action;
  Operator := operator;
  GetType := getType;
  Action_Evaluate := actionEvaluate;
  Operator_Evaluate := operatorEvaluate;
  RuleRemoveById := removed_rule_ids;
  GetRemovedTargets := getRemovedTargets;
  GetField := getField;
  MatchVars := matchVars;
  SetCapturable := setCapturable;
  MacroExpansion := fun t text => (text, t);
  MatchRule := matchRule;
  growslice := fun cap _ => (2 * cap)%nat
|}.

(** A rule with the fields the parser fills in; the rest is as [NewRule]
    leaves it. *)
Definition mkRule (id parent : Z) (variables : list RuleVariable.t)
    (transformations : list RuleTransformation.t) (multiMatch : bool)
    (op : operator) (negation : bool) (actions : list action) (log : bool)
    (msg : string) (chain : option rule) : rule :=
  Rule.mk "" variables "" (RuleOp.mk op "" negation) false transformations
    (match chain with Some _ => true | None => false end) parent actions ""
    multiMatch "" false "" log "" chain 0 "" id [] 2 msg "" "" "" 0.

(** The nil slice. *)
Definition nilSlice : Slice.t := Slice.mk 0 0 0.

Definition var (collection key : string) : RuleVariable.t :=
  RuleVariable.mk false collection key nilSlice.

Definition countVar (collection key : string) : RuleVariable.t :=
  RuleVariable.mk true collection key nilSlice.

Definition newTx (cols : list (string * list (string * string))) : transaction :=
  mkTx cols [] [] [] [] None "" false.

Definition start (t : transaction) (h : Heap) : State := mkState t h.

(** *** Rules and transactions of the scenarios of the design document *)

(** Scenario 1: a rule that denies a user agent. *)
Definition denyBadBot : rule :=
  mkRule 1 0 [var "request_headers" "User-Agent"] [] false (Streq "badbot")
    false [Deny 403] true "bad bot" None.

Definition txBadBot : transaction :=
  newTx [("request_headers", [("User-Agent", "badbot"); ("Host", "example")])].

(** Scenario 2: [/admin] chained with the method [POST]; the head sets a
    variable and denies. *)
Definition postOnly : rule :=
  mkRule 0 2 [var "request_method" ""] [] false (Streq "POST") false
    [SetVar "post" "1"; Deny 500] true "method" None.

Definition adminPost : rule :=
  mkRule 2 0 [var "request_uri" ""] [] false (Contains "/admin") false
    [Tag "admin"; SetVar "seen" "1"; Deny 403; SkipAfter "END"] true "admin"
    (Some postOnly).

Definition txGetAdmin : transaction :=
  newTx [("request_uri", [("", "/admin")]); ("request_method", [("", "GET")])].


(** Scenario 4: [&ARGS] greater than 10, on a request with 11 arguments. *)
Definition manyArgs : rule :=
  mkRule 4 0 [countVar "ARGS" ""] [] false (Gt 10) false [] true "many" None.

Definition txElevenArgs : transaction :=
  newTx [("ARGS",
          map (fun k => (k, "v"))
            ["a"; "b"; "c"; "d"; "e"; "f"; "g"; "h"; "i"; "j"; "k"])].

(** Scenario 6: a rule on [ARGS] whose variable excludes [x], in a backing
    array with room for one more element, and a transaction that has
    removed the targets [ARGS:pw] and [ARGS:y] for it. *)
Definition anyArg : rule :=
  mkRule 6 0 [RuleVariable.mk false "ARGS" "" (Slice.mk 0 1 2)] [] false
    UnconditionalMatch false [] true "arg" None.

Definition txRemovedTargets : transaction :=
  mkTx [("ARGS", [("pw", "1"); ("x", "2"); ("y", "3")])] []
    [(6, Target.mk "ARGS" "pw"); (6, Target.mk "ARGS" "y")] [] [] None ""
    false.

Definition ruleHeap : Heap := [["x"; "spare"]].

(** The same kind of rule as the parser builds it: a variable on [ARGS]
    and three exclusions, added one by one. *)
Definition argsRule : rule :=
  mkRule 6 0 [] [] false UnconditionalMatch false [] true "arg" None.

Definition builtRule : Outcome rule :=
  bind (AddNegateVariable (AddVariable argsRule false "ARGS" "") "ARGS" "x")
    (fun r1 =>
       bind (AddNegateVariable r1 "ARGS" "y")
         (fun r2 => AddNegateVariable r2 "ARGS" "z"))
    (start (newTx []) []).

(** A chain of three rules that match any request line. *)
Definition third : rule :=
  mkRule 0 7 [var "request_line" ""] [] false UnconditionalMatch false
    [SetVar "third" "1"] false "third" None.

Definition second : rule :=
  mkRule 0 7 [var "request_line" ""] [] false UnconditionalMatch false []
    false "second" (Some third).

Definition first : rule :=
  mkRule 7 0 [var "request_line" ""] [] false UnconditionalMatch false []
    true "first" (Some second).

Definition txRequest : transaction :=
  newTx [("request_line", [("", "GET / HTTP/1.1")])].

End Demo.

(** *** A transaction for the audit logger *)
Module DemoAudit.

Record audited : Type := mkAudited {
  store : Demo.transaction;
  id : string;
  timestamp : Z;
  auditPath : string * string
}.

Definition firstString (c : list (string * string)) (key : string) : string :=
  match List.filter (fun e => String.eqb (fst e) key) c with
  | e :: _ => snd e
  | [] => ""
  end.

Definition firstInt (c : list (string * string)) (key : string) : Z :=
  match Atoi (firstString c key) with
  | Some n => n
  | None => 0
  end.

(** A Go release from 1.20.  The scenarios are ASCII text, for which
    [strconv.Quote] does not consult the table of the wider runes; the
    table here has none. *)
#[export] Instance release : GoRelease :=
  {| printTable := fun _ => false; delAsHex := true |}.

Definition json (t : audited) : string :=
  "{" +:+ Quote "transaction" +:+ ":{" +:+ Quote "id" +:+ ":" +:+
  Quote (id t) +:+ "}}".

(** The local zone is one hour east of UTC; the paths joined are clean. *)
#[export] Instance view : AuditView audited := {|
  Collection := list (string * string);
  Timestamp := timestamp;
  TxId := id;
  GetCollection := fun t name => Demo.entries (store t) name;
  GetFirstString := firstString;
  GetFirstInt := firstInt;
  GetFirstInt64 := firstInt;
  GetAuditPath := auditPath;
  ToAuditJson := json;
  Local := fun _ => 3600;
  path_Join := fun dir name => dir +:+ "/" +:+ name
|}.

(** The transaction of the example in the comment of [WriteAudit], at
    2009-08-22 13:24:20 +0100. *)
Definition sample : audited :=
  mkAudited
    (Demo.newTx
       [("remote_addr", [("", "192.168.3.130")]);
        ("request_line", [("", "GET / HTTP/1.1")]);
        ("response_status", [("", "200")]);
        ("response_content_length", [("", "56")]);
        ("request_body_length", [("", "1248")])])
    "SojdH8AAQEAAAugAQAAAAAA"
    1250943860000000000
    ("/20090822/20090822-1324", "20090822-132420-SojdH8AAQEAAAugAQAAAAAA").

Definition logger : ConcurrentLogger.t :=
  ConcurrentLogger.mk "/var/log/audit.log" "/var/log/audit".

Definition emptyWorld : World := mkWorld (FS.mk ∅ ∅) "".

(** The disk is full after three bytes of the JSON file. *)
Definition diskFull : Faults :=
  mkFaults None None (Some (3%nat, "no space left on device")) None None 18.

(** The line of the sample with [ts] between the brackets. *)
Definition sampleLine (ts : string) : string :=
  "192.168.3.130 - - - [" +:+ ts +:+ "] " +:+ Quote "GET / HTTP/1.1" +:+
  " 200 56 " +:+ Quote "-" +:+ " " +:+ Quote "-" +:+
  " SojdH8AAQEAAAugAQAAAAAA " +:+ Quote "-" +:+
  " /20090822/20090822-1324/20090822-132420-SojdH8AAQEAAAugAQAAAAAA 0 1248".

End DemoAudit.

(** ** More of [rule.go] and of the logger *)

Section EngineMore.
Context `{H : Host}.

Abbreviation Rule := (Rule.t Action Operator).

(** The activations of [Evaluate] that a call stands for: a nested
    evaluation and all the evaluations nested in it. *)
Fixpoint callActivations (c : Call) : nat :=
  match c with
  | CallEvaluate _ sub _ =>
      S ((fix sum (l : list Call) : nat :=
            match l with
            | [] => 0%nat
            | c' :: l' => (callActivations c' + sum l')%nat
            end) sub)
  | _ => 0%nat
  end.

(** The activations of [Evaluate] below the one that made the calls
    [tr], at any depth. *)
Definition activations (tr : list Call) : nat :=
  (fix sum (l : list Call) : nat :=
     match l with
     | [] => 0%nat
     | c' :: l' => (callActivations c' + sum l')%nat
     end) tr.

(** Every match of [mv] has as value an argument on which a run of the
    operator recorded in [tr] matched. *)
Definition justified (r : Rule) (tr : list Call) (mv : list MatchData.t)
  : Prop :=
  Forall (fun md =>
            exists b,
              In (CallOperator (MatchData.Value md) b) tr /\
              operatorMatched r (CallOperator (MatchData.Value md) b) = true)
    mv.


(** The variable [v] with other exceptions. *)
Definition withExceptions (v : RuleVariable.t) (e : Slice.t) : RuleVariable.t :=
  RuleVariable.mk (RuleVariable.Count v) (RuleVariable.Collection v)
    (RuleVariable.Key v) e.

End EngineMore.

(** [ConcurrentLogger.Init]: the central file is opened with
    [O_CREATE|O_WRONLY|O_APPEND] and mode 0666, so a file that exists keeps
    its content and its mode and a missing one is created empty; with an
    error the logger keeps the names it had.  [openError] is the error of
    this [os.OpenFile], if any. *)
Definition LoggerInit (k : Faults) (l : ConcurrentLogger.t)
    (file directory : string) (f : FS.t)
  : error * ConcurrentLogger.t * FS.t :=
  match openError k with
  | Some e => (Some e, l, f)
  | None =>
      let opened :=
        match FS.files f !! file with
        | Some old => old
        | None => FS.mkFile "" (Z.land 438 (Z.lnot (umask k)))
        end in
      (None, ConcurrentLogger.mk file directory,
       FS.mk (<[file := opened]> (FS.files f)) (FS.dirs f))
  end.

(** The last character of a string. *)
Fixpoint lastChar (s : string) : option ascii :=
  match s with
  | EmptyString => None
  | String c EmptyString => Some c
  | String _ s' => lastChar s'
  end.

(** A decimal digit. *)
Definition isDigit (c : ascii) : bool :=
  (48 <=? Z.of_N (N_of_ascii c)) && (Z.of_N (N_of_ascii c) <=? 57).

(** The error [WriteAudit] meets first, in the order of its calls:
    creating the directory, then opening, writing and closing the JSON
    file. *)
Definition firstError (k : Faults) : error :=
  match mkdirAllError k with
  | Some e => Some e
  | None =>
      match openError k with
      | Some e => Some e
      | None =>
          match writeError k with
          | Some (_, e) => Some e
          | None => closeError k
          end
      end
  end.

(** *** More rules, transactions and worlds for the scenarios *)
Module DemoMore.
Import Demo DemoAudit.

(** The transaction of scenario 1 after a [ctl:ruleRemoveById=1]. *)
Definition txRuleRemoved : transaction :=
  mkTx (collections txBadBot) [1] [] [] [] None "" false.

(** A negated rule on an argument: it matches when [ARGS:id] is not [x]. *)
Definition notX : rule :=
  mkRule 9 0 [var "ARGS" "id"] [] false (Streq "x") true [] true "not x" None.

Fixpoint trimLeftSpaces (s : string) : string :=
  match s with
  | String " " s' => trimLeftSpaces s'
  | _ => s
  end.

Definition tfTrimLeft : RuleTransformation.t :=
  RuleTransformation.mk "trimLeft" trimLeftSpaces.

Definition tfLength : RuleTransformation.t :=
  RuleTransformation.mk "length" (fun s => Itoa (len_string s)).

Definition pipeline (ts : list RuleTransformation.t) : rule :=
  mkRule 10 0 [var "ARGS" ""] ts true (Gt 3) false [] true "long" None.

(** The write fails after three bytes and the close fails as well. *)
Definition writeAndCloseFail : Faults :=
  mkFaults None None (Some (3%nat, "no space left on device"))
    (Some "input/output error") None 18.

(** The directory cannot be created. *)
Definition noDirectory : Faults :=
  mkFaults (Some "permission denied") None None None None 18.

(** A file cannot be opened. *)
Definition cannotOpen : Faults :=
  mkFaults None (Some "permission denied") None None None 18.

(** A world where the JSON file of the sample exists, readable by all,
    and the central file has a line. *)
Definition staleWorld : World :=
  mkWorld
    (FS.mk (<[auditFile sample := FS.mkFile "stale" 420]> ∅) ∅)
    ("earlier line" +:+ newline).

(** A file system with a central file of one line. *)
Definition usedLog : FS.t :=
  FS.mk (<["/var/log/audit.log" := FS.mkFile ("earlier line" +:+ newline) 416]> ∅)
    ∅.

(** The instant of the sample and one 39 seconds later. *)
Definition at132420 : Time.t := Time.Unix (fun _ => 3600) 0 1250943860000000000.
Definition at132459 : Time.t := Time.Unix (fun _ => 3600) 0 1250943899000000000.

End DemoMore.

(** * Properties of the rule engine *)

Section EngineFacts.
Context `{H : Host}.

Abbreviation Rule := (Rule.t Action Operator).

(** *** Numerals *)


(** *** Induction along a chain and unfolding *)

Lemma Rule_chain_ind (P : Rule -> Prop) :
  (forall r, (forall nr, Rule.Chain r = Some nr -> P nr) -> P r) ->
  forall r, P r.
Proof.
  intros step. fix rec 1. intros r. apply step.
  destruct r as [? ? ? ? ? ? ? ? ? ? ? ? ? ? ? ? chain ? ? ? ? ? ? ? ? ? ?].
  simpl. intros nr Hnr. destruct chain as [c|]; [|discriminate].
  injection Hnr as <-. apply rec.
Qed.

Lemma chainLoop_unfold (evaluate : Rule -> M (list MatchData.t)) prev msgs mv :
  chainLoop evaluate prev msgs mv =
  match Rule.Chain prev with
  | None => ret (Some (msgs, mv))
  | Some nr =>
      bind (nested nr (evaluate nr)) (fun m =>
        if len m =? 0 then ret None
        else bind (macroExpansion (Rule.Msg nr)) (fun e =>
               chainLoop evaluate nr (msgs ++ [e]) (mv ++ m)))
  end.
Proof. destruct prev; reflexivity. Qed.

Lemma Evaluate_unfold (r : Rule) (s : State) :
  Evaluate r s =
  if removed r s then mkOutcome [] s []
  else
    bind (matchVariables r) (fun matchedValues =>
      if len matchedValues =? 0 then ret matchedValues
      else
        bind (afterVariables r matchedValues) (fun msgs =>
          bind (chainLoop Evaluate r msgs matchedValues) (fun chain =>
            match chain with
            | None => ret []
            | Some (msgs, matchedValues) => afterChain r msgs matchedValues
            end))) s.
Proof. destruct r; reflexivity. Qed.

Lemma links_unfold (r : Rule) :
  links r = match Rule.Chain r with None => [] | Some nr => nr :: links nr end.
Proof. destruct r; reflexivity. Qed.

Lemma len_zero {A} (l : list A) : (len l =? 0) = true <-> l = [].
Proof.
  unfold len. destruct l; simpl; [tauto|]. split; discriminate.
Qed.

Lemma len_nonzero {A} (l : list A) : (len l =? 0) = false <-> l <> [].
Proof.
  rewrite <- len_zero. destruct (len l =? 0); split; congruence.
Qed.

(** *** The four stages of an activation *)

Lemma afterChain_value (r : Rule) msgs mv s :
  value (afterChain r msgs mv s) = mv.
Proof. reflexivity. Qed.

Lemma Evaluate_Run (r : Rule) (s : State) : Run r s (Evaluate r s).
Proof.
  rewrite Evaluate_unfold.
  destruct (removed r s) eqn:Hrem; [now constructor|].
  cbv beta zeta delta [bind].
  change (matchVariables r s) with (stageVariables r s).
  destruct (len (value (stageVariables r s)) =? 0) eqn:Hlen.
  - apply len_zero in Hlen. cbn [ret value state trace].
    rewrite Hlen. now constructor.
  - apply len_nonzero in Hlen.
    change (afterVariables r (value (stageVariables r s))
             (state (stageVariables r s))) with (stageActions r s).
    change (chainLoop Evaluate r (value (stageActions r s))
             (value (stageVariables r s)) (state (stageActions r s)))
      with (stageChain r s).
    destruct (value (stageChain r s)) as [[msgs mv]|] eqn:Hchain.
    + rewrite afterChain_value. now apply RunMatched.
    + cbn [ret value state trace]. now apply RunChainFailed.
Qed.

(** *** Observations distribute over the calls *)

Lemma nestedCalls_cons c tr :
  nestedCalls (c :: tr) =
  match c with CallEvaluate nr _ m => [(nr, m)] | _ => [] end ++ nestedCalls tr.
Proof. destruct c; reflexivity. Qed.

Lemma nestedCalls_app t1 t2 :
  nestedCalls (t1 ++ t2) = nestedCalls t1 ++ nestedCalls t2.
Proof. apply omap_app. Qed.

Lemma macroResults_cons c tr :
  macroResults (c :: tr) =
  match c with CallMacroExpansion _ e => [e] | _ => [] end ++ macroResults tr.
Proof. destruct c; reflexivity. Qed.



Lemma actionCalls_app t1 t2 :
  actionCalls (t1 ++ t2) = actionCalls t1 ++ actionCalls t2.
Proof. apply omap_app. Qed.

Lemma matchRuleCalls_cons c tr :
  matchRuleCalls (c :: tr) =
  match c with CallMatchRule r msgs mv => [(r, msgs, mv)] | _ => [] end
  ++ matchRuleCalls tr.
Proof. destruct c; reflexivity. Qed.

Lemma matchRuleCalls_app t1 t2 :
  matchRuleCalls (t1 ++ t2) = matchRuleCalls t1 ++ matchRuleCalls t2.
Proof. apply omap_app. Qed.

Lemma operatorArgs_cons c tr :
  operatorArgs (c :: tr) =
  match c with CallOperator d _ => [d] | _ => [] end ++ operatorArgs tr.
Proof. destruct c; reflexivity. Qed.


(** *** Calls and heap of the primitives *)

Lemma executeOperator_value (r : Rule) data s :
  value (executeOperator r data s) =
  xorb (RuleOp.Negation (Rule.OperatorObj r))
    (fst (Operator_Evaluate (RuleOp.Operator (Rule.OperatorObj r)) (tx s) data)).
Proof.
  unfold executeOperator; cbn [value].
  destruct (RuleOp.Negation _), (fst _); reflexivity.
Qed.

Lemma executeOperator_trace (r : Rule) data s :
  trace (executeOperator r data s) =
  [CallOperator data
     (fst (Operator_Evaluate (RuleOp.Operator (Rule.OperatorObj r)) (tx s) data))].
Proof. reflexivity. Qed.

Lemma executeOperator_matched (r : Rule) data s :
  matchCount r (trace (executeOperator r data s)) =
  if value (executeOperator r data s) then 1%nat else 0%nat.
Proof.
  rewrite executeOperator_value, executeOperator_trace.
  unfold matchCount; cbn [List.filter operatorMatched].
  destruct (xorb _ _); reflexivity.
Qed.

Lemma matchCount_app (r : Rule) t1 t2 :
  matchCount r (t1 ++ t2) = (matchCount r t1 + matchCount r t2)%nat.
Proof. unfold matchCount. now rewrite List.filter_app, length_app. Qed.


(** *** The loop over the variables *)

Lemma for_range_counts {A} (r : Rule) (l : list A)
    (body : list MatchData.t -> A -> M (list MatchData.t)) :
  (forall x acc s, counts r acc (body acc x s)) ->
  forall acc s, counts r acc (for_range l body acc s).
Proof.
  unfold counts. intros Hbody. induction l as [|x l IH]; intros acc s.
  - split; [cbn; lia | constructor].
  - cbn [for_range]. cbv beta zeta delta [bind]. cbn [value trace].
    destruct (Hbody x acc s) as [L1 F1].
    destruct (IH (value (body acc x s)) (state (body acc x s))) as [L2 F2].
    split.
    + rewrite L2, L1, matchCount_app. lia.
    + apply Forall_app; split; assumption.
Qed.

Lemma matchArg_counts (r : Rule) arg carg acc s :
  counts r acc (matchArg r arg acc carg s).
Proof.
  unfold counts, matchArg. cbv beta zeta delta [bind ret]. cbn [value trace].
  rewrite app_nil_r. split.
  - rewrite executeOperator_matched.
    destruct (value (executeOperator r carg s)); rewrite ?length_app; cbn; lia.
  - repeat constructor.
Qed.

Lemma matchValue_counts (r : Rule) arg acc s :
  counts r acc (matchValue r acc arg s).
Proof.
  unfold matchValue. apply for_range_counts. intros; apply matchArg_counts.
Qed.

(** *** Slices: no call, and writes to fresh arrays only *)

Lemma silent_ret {A} (a : A) : silent (ret a).
Proof. intros s; split; reflexivity. Qed.

Lemma silent_bind {A B} (m : M A) (f : A -> M B) :
  silent m -> (forall a, silent (f a)) -> silent (bind m f).
Proof.
  intros Hm Hf s. cbv beta zeta delta [bind]. cbn [trace state].
  destruct (Hm s) as [T1 X1].
  destruct (Hf (value (m s)) (state (m s))) as [T2 X2].
  rewrite T1, T2, X2, X1. split; reflexivity.
Qed.

Lemma silent_for_range {A B} (l : list A) (body : B -> A -> M B) :
  (forall acc x, silent (body acc x)) ->
  forall acc, silent (for_range l body acc).
Proof.
  intros Hbody. induction l as [|x l IH]; intros acc; cbn [for_range].
  - apply silent_ret.
  - apply silent_bind; [apply Hbody | intros; apply IH].
Qed.

Lemma silent_make n : silent (make n).
Proof. intros s; split; reflexivity. Qed.

Lemma silent_copy dst src : silent (copy dst src).
Proof. intros s; split; reflexivity. Qed.

Lemma silent_append sl x : silent (append sl x).
Proof.
  intros s. unfold append.
  destruct (Slice.len sl <? Slice.cap sl)%nat; split; reflexivity.
Qed.

Lemma silent_buildExceptions v ecol : silent (buildExceptions v ecol).
Proof.
  unfold buildExceptions.
  apply silent_bind; [apply silent_make|]. intros e.
  apply silent_bind; [apply silent_copy|]. intros _.
  apply silent_for_range. intros acc c.
  destruct (String.eqb _ _); [apply silent_append | apply silent_ret].
Qed.

Lemma preserved_refl n h : preserved n h h.
Proof. split; [lia | reflexivity]. Qed.

Lemma preserved_trans n h1 h2 h3 :
  preserved n h1 h2 -> preserved n h2 h3 -> preserved n h1 h3.
Proof.
  intros [L1 P1] [L2 P2]. split; [lia|].
  intros a Ha. now rewrite P2, P1.
Qed.

Lemma preserved_alloc n (h : Heap) arr :
  (n <= length h)%nat -> preserved n h (h ++ [arr]).
Proof.
  intros Hn. split; [rewrite length_app; lia|].
  intros a Ha. apply lookup_app_l. lia.
Qed.

Lemma preserved_write n (h : Heap) a arr :
  (n <= a)%nat -> preserved n h (<[a := arr]> h).
Proof.
  intros Hn. split; [rewrite length_insert; lia|].
  intros b Hb. apply list_lookup_insert_ne. lia.
Qed.

Lemma framing_ret n {A} (a : A) : framing n (ret a).
Proof. intros s _. apply preserved_refl. Qed.

Lemma framing_bind n {A B} (m : M A) (f : A -> M B) :
  framing n m -> (forall a, framing n (f a)) -> framing n (bind m f).
Proof.
  intros Hm Hf s Hs. cbv beta zeta delta [bind]. cbn [state].
  pose proof (Hm s Hs) as P1.
  eapply preserved_trans; [exact P1|]. apply Hf. destruct P1; lia.
Qed.

Lemma framing_for_range n {A B} (l : list A) (body : B -> A -> M B) :
  (forall acc x, framing n (body acc x)) ->
  forall acc, framing n (for_range l body acc).
Proof.
  intros Hbody. induction l as [|x l IH]; intros acc; cbn [for_range].
  - apply framing_ret.
  - apply framing_bind; [apply Hbody | intros; apply IH].
Qed.

Lemma framing_for_each n {A} (l : list A) (body : nat -> A -> M unit) :
  (forall i x, framing n (body i x)) ->
  forall i, framing n (for_each l i body).
Proof.
  intros Hbody. induction l as [|x l IH]; intros i; cbn [for_each].
  - apply framing_ret.
  - apply framing_bind; [apply Hbody | intros; apply IH].
Qed.

Lemma framing_call n {A} (c : A -> Call) f : framing n (call c f).
Proof. intros s _. apply preserved_refl. Qed.

Lemma framing_call_ n c f : framing n (call_ c f).
Proof. intros s _. apply preserved_refl. Qed.

Lemma framing_executeOperator n (r : Rule) data :
  framing n (executeOperator r data).
Proof. intros s _. apply preserved_refl. Qed.

Lemma framing_read n sl : framing n (read sl).
Proof. intros s _. apply preserved_refl. Qed.

(** [append] writes either beyond the arrays that exist or into the array
    of its argument. *)
Lemma append_fresh n sl x s :
  (n <= length (heap s))%nat -> (n <= Slice.array sl)%nat ->
  preserved n (heap s) (heap (state (append sl x s))) /\
  (n <= Slice.array (value (append sl x s)))%nat.
Proof.
  intros Hs Hsl. unfold append.
  destruct (Slice.len sl <? Slice.cap sl)%nat; cbn [value state heap Slice.array].
  - split; [now apply preserved_write | assumption].
  - split; [now apply preserved_alloc | assumption].
Qed.

Lemma appendLoop_fresh n (v : RuleVariable.t) (ecol : list Target.t) :
  forall sl s,
    (n <= length (heap s))%nat -> (n <= Slice.array sl)%nat ->
    preserved n (heap s)
      (heap (state (for_range ecol
                      (fun exceptions c =>
                         if String.eqb (Target.Name c) (RuleVariable.Collection v)
                         then append exceptions (Target.Key c)
                         else ret exceptions) sl s))).
Proof.
  induction ecol as [|c ecol IH]; intros sl s Hs Hsl; cbn [for_range].
  - apply preserved_refl.
  - cbv beta zeta delta [bind]. cbn [state].
    destruct (String.eqb _ _).
    + destruct (append_fresh n sl (Target.Key c) s Hs Hsl) as [P1 F1].
      eapply preserved_trans; [exact P1|]. apply IH; [destruct P1; lia | exact F1].
    + cbn [ret value state]. now apply IH.
Qed.

(** Lines 136-144 write to the copy only. *)
Lemma framing_buildExceptions n v ecol : framing n (buildExceptions v ecol).
Proof.
  intros s Hs. unfold buildExceptions.
  cbv beta zeta delta [bind make alloc ret copy]. cbn [value state heap tx Slice.array].
  set (h1 := heap s ++ [replicate (Slice.len (RuleVariable.Exceptions v)) ""]).
  set (h2 := <[length (heap s) := _]> h1).
  assert (P1 : preserved n (heap s) h1) by now apply preserved_alloc.
  assert (P2 : preserved n h1 h2) by now apply preserved_write.
  eapply preserved_trans; [exact P1|].
  eapply preserved_trans; [exact P2|].
  apply (appendLoop_fresh n v ecol _ (mkState (tx s) h2)); cbn [heap Slice.array].
  - destruct P1, P2; lia.
  - exact Hs.
Qed.

(** *** The exceptions that reach [GetField] *)

Lemma length_slice_read (h : Heap) sl :
  allocated h sl -> length (slice_read h sl) = Slice.len sl.
Proof.
  intros [L C]. unfold slice_read. apply length_take_le. lia.
Qed.

Lemma append_read sl x s :
  allocated (heap s) sl ->
  slice_read (heap (state (append sl x s))) (value (append sl x s)) =
    slice_read (heap s) sl ++ [x] /\
  allocated (heap (state (append sl x s))) (value (append sl x s)).
Proof.
  intros [L C]. unfold append.
  destruct (Nat.ltb_spec (Slice.len sl) (Slice.cap sl)) as [Hlt|Hge];
    cbn [value state heap].
  - destruct (heap s !! Slice.array sl) as [arr|] eqn:E;
      cbn [default from_option id length] in C; [|lia].
    pose proof (lookup_lt_Some _ _ _ E) as Ha.
    unfold slice_read, allocated. cbn [Slice.array Slice.len Slice.cap].
    rewrite list_lookup_insert_eq by exact Ha. rewrite E.
    cbn [default from_option id]. split.
    + rewrite (take_S_r _ _ x) by (apply list_lookup_insert_eq; lia).
      now rewrite take_insert_ge by lia.
    + rewrite length_insert. lia.
  - assert (Hlen : length (slice_read (heap s) sl) = Slice.len sl)
      by (apply length_slice_read; now split).
    unfold allocated. unfold slice_read at 1.
    cbn [Slice.array Slice.len Slice.cap].
    rewrite list_lookup_middle by reflexivity.
    cbn [default from_option id]. split.
    + rewrite (app_assoc _ [x]).
      apply take_app_length'. rewrite length_app, Hlen. cbn [length]. lia.
    + rewrite !length_app, Hlen, length_replicate. cbn [length]. lia.
Qed.

Lemma appendLoop_read (v : RuleVariable.t) (ecol : list Target.t) :
  forall sl s,
    allocated (heap s) sl ->
    let o := for_range ecol
               (fun exceptions c =>
                  if String.eqb (Target.Name c) (RuleVariable.Collection v)
                  then append exceptions (Target.Key c)
                  else ret exceptions) sl s in
    slice_read (heap (state o)) (value o) =
    slice_read (heap s) sl ++ removedKeys v ecol.
Proof.
  unfold removedKeys.
  induction ecol as [|c ecol IH]; intros sl s Hal; cbv zeta;
    cbn [for_range List.filter map].
  - now rewrite app_nil_r.
  - cbv beta zeta delta [bind]. cbn [value state].
    destruct (String.eqb _ _).
    + destruct (append_read sl (Target.Key c) s Hal) as [R A].
      specialize (IH _ _ A). cbv zeta in IH. rewrite IH, R.
      cbn [map]. now rewrite <- app_assoc.
    + cbn [ret value state]. now apply IH.
Qed.

(** Lines 136-144 hand to [GetField] the exceptions of the variable
    followed by the keys of the removed targets on its collection, in a
    slice of its own. *)
Lemma buildExceptions_merges (v : RuleVariable.t) (ecol : list Target.t) s :
  allocated (heap s) (RuleVariable.Exceptions v) ->
  let o := buildExceptions v ecol s in
  slice_read (heap (state o)) (value o) =
  slice_read (heap s) (RuleVariable.Exceptions v) ++ removedKeys v ecol.
Proof.
  intros Hal. cbv zeta. unfold buildExceptions.
  cbv beta zeta delta [bind make alloc ret copy].
  cbn [value state heap tx Slice.array Slice.len].
  set (src := RuleVariable.Exceptions v) in *.
  set (n := Slice.len src).
  set (h1 := heap s ++ [replicate n ""]).
  assert (Hn : length (slice_read (heap s) src) = n)
    by now apply length_slice_read.
  assert (Hsrc : slice_read h1 src = slice_read (heap s) src).
  { unfold slice_read, h1.
    destruct (heap s !! Slice.array src) as [arr|] eqn:E.
    - now rewrite (lookup_app_l_Some _ _ _ _ E).
    - destruct Hal as [L C]. rewrite E in C. cbn in C.
      replace (Slice.len src) with 0%nat by lia. reflexivity. }
  assert (Hold : default [] (h1 !! length (heap s)) = replicate n "").
  { unfold h1. now rewrite list_lookup_middle. }
  rewrite Nat.min_id, Hsrc, Hold.
  rewrite (drop_ge (replicate n "")) by (rewrite length_replicate; lia).
  rewrite app_nil_r, (take_ge (slice_read (heap s) src)) by lia.
  set (h2 := <[length (heap s) := slice_read (heap s) src]> h1).
  set (dst := Slice.mk (length (heap s)) n n).
  assert (Hlook : h2 !! length (heap s) = Some (slice_read (heap s) src)).
  { apply list_lookup_insert_eq. unfold h1.
    rewrite length_app. cbn [length]. lia. }
  assert (Hread : slice_read h2 dst = slice_read (heap s) src).
  { unfold slice_read at 1, dst. cbn [Slice.array Slice.len].
    rewrite Hlook. cbn [default from_option id]. apply take_ge. lia. }
  assert (Hdst : allocated h2 dst).
  { unfold allocated, dst. cbn [Slice.array Slice.len Slice.cap].
    rewrite Hlook. cbn [default from_option id]. lia. }
  pose proof (appendLoop_read v ecol dst (mkState (tx s) h2) Hdst) as Hloop.
  cbv zeta in Hloop. cbn [heap] in Hloop. rewrite Hread in Hloop. exact Hloop.
Qed.

(** *** The body of the loop over the variables *)

(** Lines 162-186: what is done with the values of a variable. *)
Lemma matchVariable_unfold (r : Rule) ecol acc v s :
  let o1 := buildExceptions v ecol s in
  let excs := slice_read (heap (state o1)) (value o1) in
  let g := GetField (tx s) (RuleVariable.Collection v) (RuleVariable.Key v) excs in
  let s2 := mkState (snd g) (heap (state o1)) in
  let values :=
    if RuleVariable.Count v then countValues v (fst g) else fst g in
  let o3 :=
    (if len values =? 0 then
       bind (executeOperator r "") (fun b =>
         ret (if b then acc ++ [MatchData.zero] else acc))
     else for_range values (matchValue r) acc) s2 in
  matchVariable r ecol acc v s =
  mkOutcome (value o3) (state o3)
    (CallGetField (RuleVariable.Collection v) (RuleVariable.Key v) excs (fst g)
       :: trace o3).
Proof.
  intros o1 excs g s2 values o3.
  unfold matchVariable. cbv beta zeta delta [bind call read].
  cbn [value state trace tx heap].
  destruct (silent_buildExceptions v ecol s) as [T X].
  fold o1 in T, X |- *. rewrite T, X. cbn [app].
  reflexivity.
Qed.

(** The call of [GetField] for a variable has the merged exceptions. *)
Lemma matchVariable_exceptions (r : Rule) ecol acc v s :
  allocated (heap s) (RuleVariable.Exceptions v) ->
  exists values rest,
    trace (matchVariable r ecol acc v s) =
    CallGetField (RuleVariable.Collection v) (RuleVariable.Key v)
      (slice_read (heap s) (RuleVariable.Exceptions v) ++ removedKeys v ecol)
      values :: rest.
Proof.
  intros Hal. rewrite matchVariable_unfold. cbv zeta. cbn [trace].
  pose proof (buildExceptions_merges v ecol s Hal) as E. cbv zeta in E.
  rewrite E. eauto.
Qed.

Lemma matchVariable_counts (r : Rule) ecol v acc s :
  counts r acc (matchVariable r ecol acc v s).
Proof.
  rewrite matchVariable_unfold. cbv zeta.
  set (s2 := mkState _ _). set (values := if RuleVariable.Count v then _ else _).
  set (c := CallGetField _ _ _ _).
  assert (Hrest : counts r acc
            ((if len values =? 0 then
                bind (executeOperator r "") (fun b =>
                  ret (if b then acc ++ [MatchData.zero] else acc))
              else for_range values (matchValue r) acc) s2)).
  { destruct (len values =? 0).
    - unfold counts. cbv beta zeta delta [bind ret]. cbn [value trace].
      rewrite app_nil_r. split; [|repeat constructor].
      rewrite executeOperator_matched.
      destruct (value (executeOperator r "" s2)); rewrite ?length_app; cbn; lia.
    - apply for_range_counts. intros; apply matchValue_counts. }
  destruct Hrest as [L F]. split; cbn [value trace].
  - rewrite L. change (c :: ?t) with ([c] ++ t). rewrite matchCount_app.
    reflexivity.
  - constructor; [reflexivity | exact F].
Qed.

Lemma matchVariables_counts (r : Rule) s :
  counts r [] (matchVariables r s).
Proof.
  unfold matchVariables. cbv beta zeta delta [bind call]. cbn [value state trace].
  set (s1 := mkState _ _). set (ecol := fst _).
  destruct (for_range_counts r (Rule.Variables r) (matchVariable r ecol)
              (fun x acc s => matchVariable_counts r ecol x acc s) [] s1)
    as [L F].
  split; cbn [value trace].
  - rewrite L. cbn [app]. change (?c :: ?t) with ([c] ++ t).
    rewrite matchCount_app. reflexivity.
  - constructor; [reflexivity | exact F].
Qed.


Lemma framing_matchVariable n (r : Rule) ecol acc v :
  framing n (matchVariable r ecol acc v).
Proof.
  unfold matchVariable.
  apply framing_bind; [apply framing_buildExceptions|]. intros e.
  apply framing_bind; [apply framing_read|]. intros excs.
  apply framing_bind; [apply framing_call|]. intros values.
  destruct (len _ =? 0).
  - apply framing_bind; [apply framing_executeOperator|]. intros; apply framing_ret.
  - apply framing_for_range. intros acc' arg. unfold matchValue.
    apply framing_for_range. intros acc'' carg. unfold matchArg.
    apply framing_bind; [apply framing_executeOperator|]. intros; apply framing_ret.
Qed.

Lemma framing_matchVariables n (r : Rule) : framing n (matchVariables r).
Proof.
  unfold matchVariables.
  apply framing_bind; [apply framing_call|]. intros ecol.
  apply framing_for_range. intros; apply framing_matchVariable.
Qed.

(** *** The actions *)

Lemma for_each_actions (r : Rule) (p : Action -> bool) l i s :
  trace (for_each l i
           (fun i a => if p a then evaluateAction r i a else ret tt) s) =
  selectActions p l i.
Proof.
  revert i s. induction l as [|a l IH]; intros i s; [reflexivity|].
  cbn [for_each selectActions]. cbv beta zeta delta [bind]. cbn [trace].
  rewrite IH. destruct (p a); reflexivity.
Qed.

Lemma nonDisruptiveActions_trace (r : Rule) s :
  trace (nonDisruptiveActions r s) =
  selectActions isNonDisruptive (Rule.Actions r) 0.
Proof. apply (for_each_actions r isNonDisruptive). Qed.

Lemma disruptiveActions_trace (r : Rule) s :
  trace (disruptiveActions r s) =
  selectActions isDisruptiveOrFlow (Rule.Actions r) 0.
Proof. apply (for_each_actions r isDisruptiveOrFlow). Qed.

Lemma stageActions_trace (r : Rule) s :
  exists e,
    value (stageActions r s) = [e] /\
    trace (stageActions r s) =
    CallMatchVars (value (stageVariables r s))
      :: selectActions isNonDisruptive (Rule.Actions r) 0
      ++ [CallSetCapturable false; CallMacroExpansion (Rule.Msg r) e].
Proof.
  unfold stageActions, afterVariables. cbv beta zeta delta [bind].
  cbn [value state trace ret call_ macroExpansion call app].
  rewrite nonDisruptiveActions_trace.
  eexists; split; reflexivity.
Qed.

Lemma afterChain_trace (r : Rule) msgs mv s :
  trace (afterChain r msgs mv s) =
  if Rule.ParentId r =? 0 then
    (if Rule.Log r then [CallMatchRule r msgs mv] else [])
    ++ selectActions isDisruptiveOrFlow (Rule.Actions r) 0
  else [].
Proof.
  unfold afterChain. cbv beta zeta delta [bind]. cbn [trace ret].
  rewrite app_nil_r.
  destruct (Rule.ParentId r =? 0); [|reflexivity].
  cbn [trace]. rewrite disruptiveActions_trace.
  destruct (Rule.Log r); reflexivity.
Qed.

Lemma framing_actions n (r : Rule) (p : Action -> bool) l i :
  framing n (for_each l i
               (fun i a => if p a then evaluateAction r i a else ret tt)).
Proof.
  apply framing_for_each. intros j a.
  destruct (p a); [apply framing_call_ | apply framing_ret].
Qed.

Lemma framing_afterVariables n (r : Rule) mv : framing n (afterVariables r mv).
Proof.
  unfold afterVariables.
  apply framing_bind; [apply framing_call_|]. intros _.
  apply framing_bind; [apply (framing_actions n r isNonDisruptive)|]. intros _.
  apply framing_bind; [apply framing_call_|]. intros _.
  apply framing_bind; [apply framing_call|]. intros; apply framing_ret.
Qed.

Lemma framing_afterChain n (r : Rule) msgs mv : framing n (afterChain r msgs mv).
Proof.
  unfold afterChain.
  apply framing_bind; [|intros; apply framing_ret].
  destruct (Rule.ParentId r =? 0); [|apply framing_ret].
  apply framing_bind; [|intros; apply (framing_actions n r isDisruptiveOrFlow)].
  destruct (Rule.Log r); [apply framing_call_ | apply framing_ret].
Qed.

(** *** The loop over the chain *)

Lemma Rule_links_ind (P : Rule -> Prop) :
  (forall r, (forall nr, In nr (links r) -> P nr) -> P r) ->
  forall r, P r.
Proof.
  intros step r.
  enough (P r /\ forall nr, In nr (links r) -> P nr) by tauto.
  induction r as [r IH] using Rule_chain_ind.
  assert (Hl : forall nr, In nr (links r) -> P nr).
  { rewrite links_unfold. destruct (Rule.Chain r) as [c|] eqn:Hc; [|intros ? []].
    destruct (IH c eq_refl) as [Pc Pl].
    intros nr [<-|Hin]; [exact Pc | now apply Pl]. }
  split; [now apply step | exact Hl].
Qed.

Lemma chainLoop_last (evaluate : Rule -> M (list MatchData.t)) prev msgs mv s :
  Rule.Chain prev = None ->
  chainLoop evaluate prev msgs mv s = mkOutcome (Some (msgs, mv)) s [].
Proof. intros Hc. rewrite chainLoop_unfold, Hc. reflexivity. Qed.

Lemma chainLoop_step (evaluate : Rule -> M (list MatchData.t)) prev nr msgs mv s :
  Rule.Chain prev = Some nr ->
  let o1 := evaluate nr s in
  let g := MacroExpansion (tx (state o1)) (Rule.Msg nr) in
  let o2 := chainLoop evaluate nr (msgs ++ [fst g]) (mv ++ value o1)
              (mkState (snd g) (heap (state o1))) in
  chainLoop evaluate prev msgs mv s =
  if len (value o1) =? 0 then
    mkOutcome None (state o1) [CallEvaluate nr (trace o1) (value o1)]
  else
    mkOutcome (value o2) (state o2)
      (CallEvaluate nr (trace o1) (value o1)
         :: CallMacroExpansion (Rule.Msg nr) (fst g) :: trace o2).
Proof.
  intros Hc o1 g o2. rewrite chainLoop_unfold, Hc.
  cbv beta zeta delta [bind nested]. cbn [value state trace].
  fold o1. destruct (len (value o1) =? 0); reflexivity.
Qed.

(** What the loop has done when it ends: every link was evaluated, in
    order, each with a match; the matches and the expanded messages were
    appended.  When it is left early, the last call is the evaluation of a
    link without a match. *)
Lemma chainLoop_spec (evaluate : Rule -> M (list MatchData.t)) :
  forall prev msgs mv s,
    let o := chainLoop evaluate prev msgs mv s in
    Forall (fun c => chainCall c = true) (trace o) /\
    match value o with
    | Some (msgs', mv') =>
        map fst (nestedCalls (trace o)) = links prev /\
        Forall (fun p => snd p <> []) (nestedCalls (trace o)) /\
        mv' = mv ++ concat (map snd (nestedCalls (trace o))) /\
        msgs' = msgs ++ macroResults (trace o)
    | None =>
        exists pre nr sub,
          trace o = pre ++ [CallEvaluate nr sub []] /\
          Forall (fun p => snd p <> []) (nestedCalls pre)
    end.
Proof.
  induction prev as [prev IH] using Rule_chain_ind. intros msgs mv s.
  rewrite links_unfold.
  destruct (Rule.Chain prev) as [nr|] eqn:Hc.
  - cbv zeta. rewrite (chainLoop_step evaluate prev nr msgs mv s Hc). cbv zeta.
    set (o1 := evaluate nr s). set (g := MacroExpansion _ _).
    destruct (len (value o1) =? 0) eqn:Hlen; cbn [value trace].
    + apply len_zero in Hlen. rewrite Hlen. split.
      * repeat constructor.
      * exists [], nr, (trace o1). split; [reflexivity|constructor].
    + apply len_nonzero in Hlen.
      specialize (IH nr eq_refl (msgs ++ [fst g]) (mv ++ value o1)
                    (mkState (snd g) (heap (state o1)))).
      cbv zeta in IH. destruct IH as [F IH]. split.
      * repeat constructor. exact F.
      * destruct (value (chainLoop evaluate nr _ _ _)) as [[msgs' mv']|].
        -- destruct IH as (E1 & E2 & E3 & E4).
           rewrite !nestedCalls_cons, !macroResults_cons. cbn [app].
           repeat split.
           ++ cbn [map fst]. now rewrite E1.
           ++ constructor; [exact Hlen | exact E2].
           ++ cbn [map snd concat]. rewrite E3, <- !app_assoc. reflexivity.
           ++ rewrite E4, <- app_assoc. reflexivity.
        -- destruct IH as (pre & nr' & sub & E & Fp).
           exists (CallEvaluate nr (trace o1) (value o1)
                     :: CallMacroExpansion (Rule.Msg nr) (fst g) :: pre), nr', sub.
           split; [cbn [app]; now rewrite E|].
           rewrite !nestedCalls_cons. cbn [app].
           constructor; [exact Hlen | exact Fp].
  - cbv zeta. rewrite (chainLoop_last evaluate prev msgs mv s Hc).
    cbn [value trace]. split; [constructor|].
    repeat split; try constructor; now rewrite app_nil_r.
Qed.

(** Every nested call recorded by the loop is a run of [evaluate] on a
    link, from the state the loop had reached. *)
Lemma chainLoop_nested (evaluate : Rule -> M (list MatchData.t)) :
  forall prev msgs mv s nr sub m,
    In (CallEvaluate nr sub m) (trace (chainLoop evaluate prev msgs mv s)) ->
    In nr (links prev) /\
    exists s', sub = trace (evaluate nr s') /\ m = value (evaluate nr s').
Proof.
  induction prev as [prev IH] using Rule_chain_ind. intros msgs mv s nr sub m.
  rewrite links_unfold.
  destruct (Rule.Chain prev) as [c|] eqn:Hc.
  - rewrite (chainLoop_step evaluate prev c msgs mv s Hc). cbv zeta.
    destruct (len _ =? 0); cbn [trace].
    + intros [E|[]]. injection E as <- <- <-. split; [now left | eauto].
    + intros [E|[E|Hin]]; [| discriminate E |].
      * injection E as <- <- <-. split; [now left | eauto].
      * destruct (IH c eq_refl _ _ _ _ _ _ Hin) as [Hl Hs].
        split; [now right | exact Hs].
  - rewrite (chainLoop_last evaluate prev msgs mv s Hc). intros [].
Qed.

Lemma framing_chainLoop n (evaluate : Rule -> M (list MatchData.t)) :
  forall prev,
    (forall nr, In nr (links prev) -> framing n (evaluate nr)) ->
    forall msgs mv, framing n (chainLoop evaluate prev msgs mv).
Proof.
  induction prev as [prev IH] using Rule_chain_ind. intros Hev msgs mv.
  rewrite chainLoop_unfold. rewrite links_unfold in Hev.
  destruct (Rule.Chain prev) as [c|] eqn:Hc; [|apply framing_ret].
  apply framing_bind.
  - intros s Hs. apply (Hev c); [now left | exact Hs].
  - intros m. destruct (len m =? 0); [apply framing_ret|].
    apply framing_bind; [apply framing_call|]. intros e.
    apply (IH c eq_refl). intros nr Hnr. apply Hev. now right.
Qed.

(** [Evaluate] leaves every array that existed before the call as it was. *)
Lemma framing_Evaluate n (r : Rule) : framing n (Evaluate r).
Proof.
  induction r as [r IH] using Rule_links_ind.
  intros s Hs. rewrite Evaluate_unfold.
  destruct (removed r s); [apply preserved_refl|].
  revert s Hs. apply framing_bind; [apply framing_matchVariables|].
  intros mv. destruct (len mv =? 0); [apply framing_ret|].
  apply framing_bind; [apply framing_afterVariables|]. intros msgs.
  apply framing_bind; [now apply framing_chainLoop|].
  intros [[msgs' mv']|]; [apply framing_afterChain | apply framing_ret].
Qed.

(** *** [executeTransformations] and [executeTransformationsMultimatch] *)

Lemma multimatchLoop_spec (ts : list RuleTransformation.t) :
  forall value res,
    multimatchLoop ts value res =
    res ++ map (fun i => fold_left callTf (take i ts) value)
             (seq 1 (length ts)).
Proof.
  induction ts as [|t ts IH]; intros value res; cbn [multimatchLoop length seq map].
  - now rewrite app_nil_r.
  - rewrite IH, <- app_assoc. cbn [app take fold_left]. do 2 f_equal.
    rewrite <- (seq_shift (length ts) 1), map_map. reflexivity.
Qed.

(** C5. [executeTransformationsMultimatch] returns the input followed by
    the value after each transformation: its length is one more than the
    number of transformations; its element [i] is the input with the
    [TfFunc] of the first [i] transformations applied in order, so its
    first element is the input, each further element is the [TfFunc] of
    the next transformation applied to the element before it, and its
    last element is [executeTransformations] of the input, which is the
    input with the [TfFunc] of every transformation applied in order. *)
Theorem executeTransformationsMultimatch_spec (r : Rule) (s : string) :
  let ts := Rule.Transformations r in
  let res := executeTransformationsMultimatch r s in
  let applied (i : nat) :=
    fold_left (fun v t => RuleTransformation.TfFunc t v) (take i ts) s in
  length res = S (length ts) /\
  res = map applied (seq 0 (S (length ts))) /\
  res !! 0%nat = Some s /\
  (forall i t v,
     ts !! i = Some t -> res !! i = Some v ->
     res !! S i = Some (RuleTransformation.TfFunc t v)) /\
  last res = Some (executeTransformations r s) /\
  executeTransformations r s = applied (length ts).
Proof.
  intros ts res applied.
  assert (E : res = map applied (seq 0 (S (length ts)))).
  { unfold res, executeTransformationsMultimatch. fold ts.
    rewrite multimatchLoop_spec. reflexivity. }
  assert (L : forall i, (i <= length ts)%nat -> res !! i = Some (applied i)).
  { intros i Hi. rewrite E, list_lookup_fmap.
    rewrite (lookup_seq_lt 0 (S (length ts)) i) by lia. reflexivity. }
  assert (F : executeTransformations r s = applied (length ts)).
  { unfold executeTransformations, applied. fold ts.
    now rewrite firstn_all. }
  split; [rewrite E, length_map, length_seq; reflexivity|].
  split; [exact E|].
  split; [rewrite E; reflexivity|].
  split; [|split; [|exact F]].
  - intros i t v Ht Hv. pose proof (lookup_lt_Some _ _ _ Ht) as Hi.
    rewrite (L i) in Hv by lia. injection Hv as <-.
    rewrite (L (S i)) by lia. f_equal. unfold applied.
    rewrite (take_S_r ts i t Ht), fold_left_app. reflexivity.
  - rewrite F, E, seq_S, map_app. cbn [map]. rewrite last_snoc.
    reflexivity.
Qed.

(** *** The rules are left as they were *)

(** *** The calls of each stage *)

Lemma kinds_disjoint (a : Action) :
  isNonDisruptive a = true -> isDisruptiveOrFlow a = false.
Proof.
  unfold isNonDisruptive, isDisruptiveOrFlow. intros E.
  apply Z.eqb_eq in E. rewrite E. reflexivity.
Qed.

Lemma selectActions_In (p : Action -> bool) l :
  forall i c,
    In c (selectActions p l i) <->
    exists j a, c = CallAction (i + j) a /\ l !! j = Some a /\ p a = true.
Proof.
  induction l as [|a l IH]; intros i c; cbn [selectActions].
  - split; [intros [] | intros (j & a & _ & E & _); discriminate].
  - rewrite in_app_iff, IH. split.
    + intros [Hin | (j & b & -> & Hj & Hp)].
      * destruct (p a) eqn:Hp; [|destruct Hin].
        destruct Hin as [<-|[]]. exists 0%nat, a.
        rewrite Nat.add_0_r. auto.
      * exists (S j), b. rewrite Nat.add_succ_r. auto.
    + intros ([|j] & b & -> & Hj & Hp).
      * injection Hj as <-. left. rewrite Hp, Nat.add_0_r. now left.
      * right. exists j, b. rewrite Nat.add_succ_r. auto.
Qed.


Lemma selectActions_Forall (p : Action -> bool) (q : Call -> bool) l i :
  (forall j a, p a = true -> q (CallAction j a) = true) ->
  Forall (fun c => q c = true) (selectActions p l i).
Proof.
  intros Hq. apply Forall_forall. intros c Hc. apply list_elem_of_In in Hc.
  apply selectActions_In in Hc. destruct Hc as (j & a & -> & _ & Hp). auto.
Qed.

Lemma stageVariables_calls (r : Rule) s :
  Forall (fun c => variableCall c = true) (trace (stageVariables r s)).
Proof. apply matchVariables_counts. Qed.

Lemma stageActions_calls (r : Rule) s :
  Forall (fun c => actionStageCall c = true) (trace (stageActions r s)).
Proof.
  destruct (stageActions_trace r s) as (e & _ & ->).
  constructor; [reflexivity|]. apply Forall_app. split.
  - apply selectActions_Forall. auto.
  - repeat constructor.
Qed.

Lemma stageChain_calls (r : Rule) s :
  Forall (fun c => chainCall c = true) (trace (stageChain r s)).
Proof. apply (chainLoop_spec Evaluate). Qed.

Lemma afterChain_calls (r : Rule) msgs mv s :
  Forall (fun c => finalCall c = true) (trace (afterChain r msgs mv s)).
Proof.
  rewrite afterChain_trace. destruct (Rule.ParentId r =? 0); [|constructor].
  apply Forall_app. split.
  - destruct (Rule.Log r); repeat constructor.
  - apply selectActions_Forall. auto.
Qed.

(** A property of the calls of a stage holds of each of its calls. *)
Lemma stage_call (q : Call -> bool) tr c :
  Forall (fun c => q c = true) tr -> In c tr -> q c = true.
Proof.
  intros F Hin. rewrite Forall_forall in F. apply F. now apply list_elem_of_In.
Qed.

Lemma nestedCalls_none (q : Call -> bool) tr :
  (forall nr sub m, q (CallEvaluate nr sub m) = false) ->
  Forall (fun c => q c = true) tr -> nestedCalls tr = [].
Proof.
  intros Hq. induction 1 as [|c tr Hc _ IH]; [reflexivity|].
  rewrite nestedCalls_cons, IH.
  destruct c; try reflexivity. now rewrite Hq in Hc.
Qed.

Lemma matchRuleCalls_none (q : Call -> bool) tr :
  (forall r msgs mv, q (CallMatchRule r msgs mv) = false) ->
  Forall (fun c => q c = true) tr -> matchRuleCalls tr = [].
Proof.
  intros Hq. induction 1 as [|c tr Hc _ IH]; [reflexivity|].
  rewrite matchRuleCalls_cons, IH.
  destruct c; try reflexivity. now rewrite Hq in Hc.
Qed.


Lemma matchCount_none (r : Rule) (q : Call -> bool) tr :
  (forall data b, q (CallOperator data b) = false) ->
  Forall (fun c => q c = true) tr -> matchCount r tr = 0%nat.
Proof.
  intros Hq. unfold matchCount. induction 1 as [|c tr Hc _ IH]; [reflexivity|].
  cbn [List.filter]. destruct c; try exact IH. now rewrite Hq in Hc.
Qed.


Lemma nestedCalls_In tr nr sub m :
  In (CallEvaluate nr sub m) tr -> In (nr, m) (nestedCalls tr).
Proof.
  intros Hin. apply list_elem_of_In, list_elem_of_omap.
  exists (CallEvaluate nr sub m). split; [now apply list_elem_of_In | reflexivity].
Qed.

Lemma nested_nonempty tr nr sub :
  Forall (fun p : Rule * list MatchData.t => snd p <> []) (nestedCalls tr) ->
  ~ In (CallEvaluate nr sub []) tr.
Proof.
  intros F Hin. apply nestedCalls_In in Hin.
  rewrite Forall_forall in F. apply list_elem_of_In in Hin.
  now apply (F _ Hin).
Qed.

(** The outcome of the loop over the chain, by its result. *)
Lemma stageChain_spec (r : Rule) s :
  match value (stageChain r s) with
  | Some (msgs, mv) =>
      map fst (nestedCalls (trace (stageChain r s))) = links r /\
      Forall (fun p => snd p <> []) (nestedCalls (trace (stageChain r s))) /\
      mv = value (stageVariables r s)
             ++ concat (map snd (nestedCalls (trace (stageChain r s)))) /\
      msgs = value (stageActions r s) ++ macroResults (trace (stageChain r s))
  | None =>
      exists pre nr sub,
        trace (stageChain r s) = pre ++ [CallEvaluate nr sub []]
  end.
Proof.
  pose proof (chainLoop_spec Evaluate r (value (stageActions r s))
                (value (stageVariables r s)) (state (stageActions r s))) as S.
  cbv zeta in S. fold (stageChain r s) in S.
  destruct (value (stageChain r s)) as [[msgs mv]|]; [tauto|].
  destruct S as (_ & pre & nr & sub & E & _). eauto.
Qed.

(** A rule listed in [tx.RuleRemoveById] is skipped: nothing is called and
    nothing changes. *)
Lemma Evaluate_removed (r : Rule) (s : State) :
  removed r s = true -> Evaluate r s = mkOutcome [] s [].
Proof. intros E. now rewrite Evaluate_unfold, E. Qed.

(** The nested calls an activation records are activations of links of its
    chain, with the result they returned. *)
Lemma nested_calls_are_activations (r : Rule) (s : State) nr sub m :
  In (CallEvaluate nr sub m) (trace (Evaluate r s)) ->
  In nr (links r) /\
  exists s', sub = trace (Evaluate nr s') /\ m = value (Evaluate nr s').
Proof.
  assert (Hchain : In (CallEvaluate nr sub m) (trace (stageChain r s)) ->
                   In nr (links r) /\
                   exists s', sub = trace (Evaluate nr s') /\
                              m = value (Evaluate nr s')).
  { apply chainLoop_nested. }
  destruct (Evaluate_Run r s) as [Hrem|Hrem Hv|Hrem Hv Hc|msgs mv Hrem Hv Hc];
    cbn [trace]; rewrite ?in_app_iff; intros Hin.
  - destruct Hin.
  - destruct Hin as [Hin|[]].
    pose proof (stage_call _ _ _ (stageVariables_calls r s) Hin). discriminate.
  - destruct Hin as [Hin|[Hin|[Hin|[]]]].
    + pose proof (stage_call _ _ _ (stageVariables_calls r s) Hin). discriminate.
    + pose proof (stage_call _ _ _ (stageActions_calls r s) Hin). discriminate.
    + now apply Hchain.
  - destruct Hin as [Hin|[Hin|[Hin|Hin]]].
    + pose proof (stage_call _ _ _ (stageVariables_calls r s) Hin). discriminate.
    + pose proof (stage_call _ _ _ (stageActions_calls r s) Hin). discriminate.
    + now apply Hchain.
    + pose proof (stage_call _ _ _ (afterChain_calls r msgs mv _) Hin). discriminate.
Qed.

(** ** The properties of [Rule.Evaluate] *)


(** C2. If the evaluation of a link of the chain by the head rule returns
    the empty list, then [Evaluate] of the head rule returns the empty
    list, the head rule runs no action of kind disruptive or flow, and it
    does not call [tx.MatchRule], so nothing is appended to the matched
    rules for it. *)
Theorem chain_failure (r : Rule) (s : State) nr sub :
  In (CallEvaluate nr sub []) (trace (Evaluate r s)) ->
  value (Evaluate r s) = [] /\
  (forall i a, In (CallAction i a) (trace (Evaluate r s)) ->
               isDisruptiveOrFlow a = false) /\
  matchRuleCalls (trace (Evaluate r s)) = [].
Proof.
  destruct (Evaluate_Run r s) as [Hrem|Hrem Hv|Hrem Hv Hc|msgs mv Hrem Hv Hc];
    cbn [value trace]; intros Hin.
  - destruct Hin.
  - rewrite app_nil_r in Hin.
    pose proof (stage_call _ _ _ (stageVariables_calls r s) Hin). discriminate.
  - split; [reflexivity|]. split.
    + intros i a Ha. rewrite !in_app_iff in Ha.
      destruct Ha as [Ha|[Ha|[Ha|[]]]].
      * pose proof (stage_call _ _ _ (stageVariables_calls r s) Ha). discriminate.
      * apply kinds_disjoint.
        exact (stage_call _ _ _ (stageActions_calls r s) Ha).
      * pose proof (stage_call _ _ _ (stageChain_calls r s) Ha). discriminate.
    + rewrite !matchRuleCalls_app.
      rewrite (matchRuleCalls_none variableCall _ (fun _ _ _ => eq_refl)
                 (stageVariables_calls r s)).
      rewrite (matchRuleCalls_none actionStageCall _ (fun _ _ _ => eq_refl)
                 (stageActions_calls r s)).
      rewrite (matchRuleCalls_none chainCall _ (fun _ _ _ => eq_refl)
                 (stageChain_calls r s)).
      reflexivity.
  - exfalso.
    pose proof (stageChain_spec r s) as S. rewrite Hc in S.
    destruct S as (_ & F & _).
    rewrite !in_app_iff in Hin. destruct Hin as [Hin|[Hin|[Hin|Hin]]].
    + pose proof (stage_call _ _ _ (stageVariables_calls r s) Hin). discriminate.
    + pose proof (stage_call _ _ _ (stageActions_calls r s) Hin). discriminate.
    + exact (nested_nonempty _ nr sub F Hin).
    + pose proof (stage_call _ _ _ (afterChain_calls r msgs mv _) Hin). discriminate.
Qed.











(** C7. [Evaluate] does not write to the rule.  The rule is passed by
    value to every stage and none returns a rule; the one piece of memory
    reachable from a rule that [Evaluate] hands to [copy] and [append], the
    backing array of the exceptions of a variable, keeps its content: every
    array that exists when [Evaluate] is called is the same afterwards, so
    the exceptions of every variable of [R] and of the links of its chain
    read the same.  The removed targets go to a copy. *)
Theorem Evaluate_preserves_rules (r : Rule) (s : State) :
  let h := heap s in
  let h' := heap (state (Evaluate r s)) in
  take (length h) h' = h /\
  forall r' v,
    r' = r \/ In r' (links r) ->
    In v (Rule.Variables r') ->
    (Slice.array (RuleVariable.Exceptions v) < length h)%nat ->
    slice_read h' (RuleVariable.Exceptions v) =
    slice_read h (RuleVariable.Exceptions v).
Proof.
  cbv zeta.
  destruct (framing_Evaluate (length (heap s)) r s (le_n _)) as [L P].
  split.
  - apply list_eq. intros i.
    destruct (Nat.lt_ge_cases i (length (heap s))) as [Hi|Hi].
    + rewrite lookup_take_lt by exact Hi. now apply P.
    + rewrite lookup_take_ge by exact Hi. symmetry. now apply lookup_ge_None.
  - intros r' v _ _ Ha. unfold slice_read. now rewrite P.
Qed.

(** *** Counting variables *)




End EngineFacts.

(** * The engine on the scenarios *)

Section Scenarios.
Import Demo.

(** Scenario 1: the interruption is set and the rule is logged once. *)
Example scenario_simple_deny :
  let o := Evaluate denyBadBot (start txBadBot []) in
  interruption (tx (state o)) = Some ("deny", 403, 1) /\
  length (matched_rules (tx (state o))) = 1%nat.
Proof. vm_compute. split; reflexivity. Qed.

(** Scenario 2: no interruption, nothing logged, and the non-disruptive
    action of the head has run. *)
Example scenario_chain_fails :
  let o := Evaluate adminPost (start txGetAdmin []) in
  value o = [] /\
  interruption (tx (state o)) = None /\
  matched_rules (tx (state o)) = [] /\
  entries (tx (state o)) "tx" = [("seen", "1")].
Proof. vm_compute. repeat split; reflexivity. Qed.

(** Scenario 4: the operator is run on the numeral 11 and the match has the
    empty key. *)
Example scenario_count :
  let o := Evaluate manyArgs (start txElevenArgs []) in
  operatorArgs (trace o) = ["11"] /\
  value o = [MatchData.mk "ARGS" "" "11"].
Proof. vm_compute. split; reflexivity. Qed.

(** Scenario 6: the removed targets are passed to [GetField] after the
    exception of the variable, and the backing array of the rule keeps its
    spare element. *)
Example scenario_removed_target :
  let o := Evaluate anyArg (start txRemovedTargets ruleHeap) in
  (exists values,
     In (CallGetField "ARGS" "" ["x"; "pw"; "y"] values) (trace o)) /\
  heap (state o) !! 0%nat = Some ["x"; "spare"].
Proof. vm_compute. split; [eexists; right; left; reflexivity | reflexivity]. Qed.

(** An [append] straight to the slice of the rule would have used the room
    in its backing array. *)
Example append_in_place :
  heap (state (append (Slice.mk 0 1 2) "pw" (start txRemovedTargets ruleHeap)))
  = [["x"; "pw"]].
Proof. reflexivity. Qed.

(** A rule built with [AddNegateVariable] has room left in the backing
    array of its exceptions: three elements, capacity four. *)
Example built_rule_has_spare_capacity :
  map RuleVariable.Exceptions (Rule.Variables (value builtRule)) =
    [Slice.mk 2 3 4] /\
  heap (state builtRule) !! 2%nat = Some ["x"; "y"; "z"; ""].
Proof. vm_compute. split; reflexivity. Qed.

(** In a chain of three, the head evaluates the second rule, which
    evaluates the third as its own chain, and then the head evaluates the
    third again: the matches of the third rule are returned twice and its
    non-disruptive action runs twice. *)
Example third_link_evaluated_twice :
  let o := Evaluate first (start txRequest []) in
  map fst (nestedCalls (trace o)) = [second; third] /\
  length (value o) = 4%nat /\
  entries (tx (state o)) "tx" = [("third", "1"); ("third", "1")].
Proof. vm_compute. repeat split; reflexivity. Qed.


Lemma chain_failure_witness :
  value (Evaluate adminPost (start txGetAdmin [])) = [] /\
  (forall i a,
     In (CallAction i a) (trace (Evaluate adminPost (start txGetAdmin []))) ->
     isDisruptiveOrFlow a = false) /\
  matchRuleCalls (trace (Evaluate adminPost (start txGetAdmin []))) = [].
Proof.
  eapply (chain_failure (H:=host) adminPost (start txGetAdmin []) postOnly).
  cbv. do 7 right. left. reflexivity.
Defined.




Lemma Evaluate_preserves_rules_witness :
  slice_read (heap (state (Evaluate anyArg (start txRemovedTargets ruleHeap))))
    (Slice.mk 0 1 2) = ["x"].
Proof.
  apply (proj2 (Evaluate_preserves_rules (H:=host) anyArg
                  (start txRemovedTargets ruleHeap))
           anyArg (RuleVariable.mk false "ARGS" "" (Slice.mk 0 1 2))).
  - left. reflexivity.
  - left. reflexivity.
  - cbn. lia.
Defined.


End Scenarios.

(** * Properties of the audit logger *)

Section QuoteFacts.

(** On ASCII text [Quote] does not consult the table of the wider
    runes. *)
Lemma Quote_table_free (G1 G2 : GoRelease) (s : string) :
  isASCII s = true ->
  @delAsHex G1 = @delAsHex G2 ->
  @Quote G1 s = @Quote G2 s.
Proof.
  intros Hs Hdel. unfold Quote. f_equal. f_equal.
  induction s as [|c s IH]; [reflexivity|].
  cbn [isASCII] in Hs. apply andb_prop in Hs. destruct Hs as [Hc Hs].
  apply Z.ltb_lt in Hc. cbn [quoteLoop].
  unfold utf8.RuneSelf.
  destruct (Z.leb_spec 128 (byteOf c)) as [Hge|_]; [lia|].
  assert (Hne : (byteOf c =? utf8.RuneError) = false)
    by (apply Z.eqb_neq; unfold utf8.RuneError; lia).
  rewrite Hne. cbn [Nat.eqb andb Nat.sub]. rewrite (IH Hs). f_equal.
  unfold appendEscapedRune, IsPrint. rewrite Hdel.
  destruct (Z.leb_spec (byteOf c) 255) as [_|Hgt]; [reflexivity | lia].
Qed.

Context {G : GoRelease}.

(** What [strconv.Quote] does to text that is not printable ASCII,
    whatever the release: a tab and a line feed by name, NUL in
    hexadecimal, the double quote and the backslash behind a backslash. *)
Example Quote_control :
  Quote (bytes [97; 9; 10; 0; 34; 92]) =
  bytes [34; 97; 92; 116; 92; 110; 92; 120; 48; 48; 92; 34; 92; 92; 34].
Proof. reflexivity. Qed.

(** DEL is written in hexadecimal by a release from Go 1.20 and by
    number by an earlier one. *)
Example Quote_del :
  Quote (bytes [127]) =
  if delAsHex then bytes [34; 92; 120; 55; 102; 34]
  else bytes [34; 92; 117; 48; 48; 55; 102; 34].
Proof. destruct G as [table [|]]; reflexivity. Qed.

(** A byte that starts no encoding, an encoding that is too long and an
    encoded surrogate are written byte by byte in hexadecimal. *)
Example Quote_invalid :
  Quote (bytes [255]) = bytes [34; 92; 120; 102; 102; 34] /\
  Quote (bytes [192; 128]) =
    bytes [34; 92; 120; 99; 48; 92; 120; 56; 48; 34] /\
  Quote (bytes [237; 160; 128]) =
    bytes [34; 92; 120; 101; 100; 92; 120; 97; 48; 92; 120; 56; 48; 34].
Proof. vm_compute. repeat split; reflexivity. Qed.

(** A printable rune of Latin-1 is kept in its encoding; the soft hyphen
    U+00AD and the no-break space U+00A0 are written by number. *)
Example Quote_latin1 :
  Quote (bytes [195; 169]) = bytes [34; 195; 169; 34] /\
  Quote (bytes [194; 173]) = bytes [34; 92; 117; 48; 48; 97; 100; 34] /\
  Quote (bytes [194; 160]) = bytes [34; 92; 117; 48; 48; 97; 48; 34].
Proof. vm_compute. repeat split; reflexivity. Qed.

(** A rune above U+00FF is kept in its encoding when the table has it
    as printable, and is written by number otherwise: with four digits
    up to U+FFFF and with eight above. *)
Example Quote_wide :
  Quote (bytes [226; 130; 172]) =
    (if printTable 8364 then bytes [34; 226; 130; 172; 34]
     else bytes [34; 92; 117; 50; 48; 97; 99; 34]) /\
  Quote (bytes [240; 159; 152; 128]) =
    (if printTable 128512 then bytes [34; 240; 159; 152; 128; 34]
     else bytes [34; 92; 85; 48; 48; 48; 49; 102; 54; 48; 48; 34]).
Proof.
  destruct G as [table del]. split; cbv;
    [destruct (table 8364%Z) | destruct (table 128512%Z)]; reflexivity.
Qed.

End QuoteFacts.

Section AuditFacts.
Context {Tx : Type} `{V : AuditView Tx} {G : GoRelease}.

Lemma WriteFile_written (k : Faults) filename data perm f :
  fst (WriteFile k filename data perm f) = None ->
  contentOf (snd (WriteFile k filename data perm f)) filename = Some data.
Proof.
  unfold WriteFile, contentOf.
  destruct (openError k); [discriminate|].
  destruct (writeError k) as [[n e]|]; [discriminate|].
  intros _. cbn [snd FS.files]. now rewrite lookup_insert_eq.
Qed.

Lemma WriteFile_mode (k : Faults) filename data perm f :
  fst (WriteFile k filename data perm f) = None ->
  FS.files f !! filename = None ->
  FS.mode <$> FS.files (snd (WriteFile k filename data perm f)) !! filename =
  Some (Z.land perm (Z.lnot (umask k))).
Proof.
  unfold WriteFile.
  destruct (openError k); [discriminate|].
  intros _ Hnew. cbn [snd FS.files]. now rewrite lookup_insert_eq, Hnew.
Qed.

Lemma WriteFile_error (k : Faults) filename data perm f :
  fst (WriteFile k filename data perm f) = None <->
  openError k = None /\ writeError k = None /\ closeError k = None.
Proof.
  unfold WriteFile.
  destruct (openError k); [cbn; intuition discriminate|].
  destruct (writeError k) as [[n e]|]; cbn; [intuition discriminate|].
  tauto.
Qed.

Lemma WriteFile_dirs (k : Faults) filename data perm f :
  FS.dirs (snd (WriteFile k filename data perm f)) = FS.dirs f.
Proof. unfold WriteFile. now destruct (openError k). Qed.

(** C8, as the code has it.  [WriteAudit] reports success exactly when
    neither the creation of the directory nor opening, writing or closing
    the JSON file failed.  On a failure the line is not appended to the
    central file.  On success the file at the audit path holds the JSON
    document, with mode 0600 less the mask of the process when it was
    created, the directory exists, and the line (with its newline) was
    appended.  So the line is appended only if the JSON file was written
    completely. *)
Theorem WriteAudit_outcome (k : Faults) (l : ConcurrentLogger.t) (tx : Tx)
    (w : World) :
  let r := WriteAudit k l tx w in
  (fst r = None <-> jsonFaultFree k) /\
  (fst r <> None -> printed (snd r) = printed w) /\
  (fst r = None ->
   contentOf (fs (snd r)) (auditFile tx) = Some (ToAuditJson tx) /\
   (FS.files (fs w) !! auditFile tx = None ->
    FS.mode <$> FS.files (fs (snd r)) !! auditFile tx =
    Some (Z.land 384 (Z.lnot (umask k)))) /\
   fst (GetAuditPath tx) ∈ FS.dirs (fs (snd r)) /\
   (printError k = None ->
    printed (snd r) =
    printed w +:+
    (if endsWithNewline (auditLine tx) then auditLine tx
     else auditLine tx +:+ newline))) /\
  (printed (snd r) <> printed w ->
   contentOf (fs (snd r)) (auditFile tx) = Some (ToAuditJson tx)).
Proof.
  cbv zeta. unfold WriteAudit, jsonFaultFree, MkdirAll.
  destruct (mkdirAllError k) as [e|] eqn:Hmk.
  { cbn [fst snd printed]. repeat split; try congruence; intuition congruence. }
  set (f1 := FS.mk _ _).
  pose proof (WriteFile_error k (auditFile tx) (ToAuditJson tx) 384 f1) as Herr.
  pose proof (WriteFile_written k (auditFile tx) (ToAuditJson tx) 384 f1) as Hw.
  pose proof (WriteFile_mode k (auditFile tx) (ToAuditJson tx) 384 f1) as Hm.
  pose proof (WriteFile_dirs k (auditFile tx) (ToAuditJson tx) 384 f1) as Hd.
  destruct (WriteFile k (auditFile tx) (ToAuditJson tx) 384 f1) as [[e|] f2].
  { cbn [fst snd printed] in *. repeat split; try congruence.
    intros (_ & A). apply Herr in A. discriminate. }
  cbn [fst snd printed fs Print] in *.
  split; [split; [intros _; split; [reflexivity | now apply Herr] | reflexivity]|].
  split; [congruence|].
  split; [|intros _; now apply Hw].
  intros _. split; [now apply Hw|].
  split; [intros Hnew; now apply Hm|].
  split.
  - rewrite Hd. unfold f1. cbn [FS.dirs].
    apply elem_of_union. left. now apply elem_of_singleton.
  - intros ->. reflexivity.
Qed.

(** *** The timestamp of the concise line *)

Lemma append_nil_r (s : string) : s +:+ "" = s.
Proof.
  induction s as [|c s IH]; [reflexivity|].
  change (String c s +:+ "") with (String c (s +:+ "")). now rewrite IH.
Qed.

Lemma append_assoc (s1 s2 s3 : string) :
  (s1 +:+ s2) +:+ s3 = s1 +:+ (s2 +:+ s3).
Proof.
  induction s1 as [|c s1 IH]; [reflexivity|].
  change (String c ((s1 +:+ s2) +:+ s3) = String c (s1 +:+ (s2 +:+ s3))).
  now rewrite IH.
Qed.

Lemma formatLoop_S (n : nat) (x : Time.t) (layout : string) :
  Time.formatLoop (S n) x layout =
  fst (fst (Time.nextStdChunk layout)) +:+
  match snd (fst (Time.nextStdChunk layout)) with
  | None => ""
  | Some s => Time.render x s +:+ Time.formatLoop n x (snd (Time.nextStdChunk layout))
  end.
Proof. reflexivity. Qed.

(** Split off the next element of a layout that is a literal. *)
Ltac next_chunk :=
  rewrite formatLoop_S;
  match goal with
  | |- context [Time.nextStdChunk ?l] =>
      let r := eval vm_compute in (Time.nextStdChunk l) in
      change (Time.nextStdChunk l) with r
  end;
  cbn [fst snd].

(** With the layout of the source, the text after the minutes is the day
    of the month, without padding, and the digit 0: the [2] of [20] is the
    layout element of the day and the [0] is plain text. *)
Lemma Format_auditLayout (x : Time.t) :
  Time.Format x auditLayout =
  Time.appendInt (Time.Day x) 2 +:+ "/" +:+
  String.substring 0 3 (Time.monthName (Time.Month x)) +:+ "/" +:+
  Time.appendInt (Time.Year x) 4 +:+ ":" +:+
  Time.appendInt (Time.Hour x) 2 +:+ ":" +:+
  Time.appendInt (Time.Minute x) 2 +:+ ":" +:+
  Time.appendInt (Time.Day x) 0 +:+ "0 " +:+
  Time.zone x false false false.
Proof.
  unfold Time.Format, auditLayout.
  let n := eval vm_compute in
    (S (String.length "02/Jan/2006:15:04:20 -0700")) in
  change (S (String.length "02/Jan/2006:15:04:20 -0700")) with n.
  do 8 next_chunk. cbn [Time.render String.append]. now rewrite append_nil_r.
Qed.

(** With the layout [15:04:05] the same position holds the seconds. *)
Lemma Format_secondsLayout (x : Time.t) :
  Time.Format x secondsLayout =
  Time.appendInt (Time.Day x) 2 +:+ "/" +:+
  String.substring 0 3 (Time.monthName (Time.Month x)) +:+ "/" +:+
  Time.appendInt (Time.Year x) 4 +:+ ":" +:+
  Time.appendInt (Time.Hour x) 2 +:+ ":" +:+
  Time.appendInt (Time.Minute x) 2 +:+ ":" +:+
  Time.appendInt (Time.Second x) 2 +:+ " " +:+
  Time.zone x false false false.
Proof.
  unfold Time.Format, secondsLayout.
  let n := eval vm_compute in
    (S (String.length "02/Jan/2006:15:04:05 -0700")) in
  change (S (String.length "02/Jan/2006:15:04:05 -0700")) with n.
  do 8 next_chunk. cbn [Time.render String.append]. now rewrite append_nil_r.
Qed.

(** The fields of the concise line, in the order of the format. *)
Lemma auditLine_fields (tx : Tx) :
  auditLine tx =
  GetFirstString (GetCollection tx "remote_addr") "" +:+ " " +:+ "-" +:+
  " - - [" +:+
  Time.Format (Time.Unix Local 0 (Timestamp tx)) auditLayout +:+ "] " +:+
  Quote (GetFirstString (GetCollection tx "request_line") "") +:+ " " +:+
  Itoa (GetFirstInt (GetCollection tx "response_status") "") +:+ " " +:+
  Itoa (GetFirstInt64 (GetCollection tx "response_content_length") "") +:+
  " " +:+ Quote "-" +:+ " " +:+ Quote "-" +:+ " " +:+ TxId tx +:+ " " +:+
  Quote "-" +:+ " " +:+ auditFile tx +:+ " " +:+ Itoa 0 +:+ " " +:+
  Itoa (GetFirstInt64 (GetCollection tx "request_body_length") "").
Proof.
  unfold auditLine, auditFormat, auditFile.
  cbn [Sprintf Ascii.eqb Bool.eqb formatArg String.append].
  rewrite append_nil_r. reflexivity.
Qed.

End AuditFacts.

(** * Properties of [Md5] *)

Section Md5Facts.

Lemma length_bytesLE (n : nat) (x : Z) : length (MD5.bytesLE n x) = n.
Proof.
  revert x. induction n as [|n IH]; intros x; cbn [MD5.bytesLE length];
    [reflexivity | now rewrite IH].
Qed.

Lemma bytesLE_range (n : nat) (x : Z) :
  Forall (fun y => 0 <= y < 256) (MD5.bytesLE n x).
Proof.
  revert x. induction n as [|n IH]; intros x; cbn [MD5.bytesLE]; constructor.
  - apply Z.mod_pos_bound. lia.
  - apply IH.
Qed.

Lemma length_Sum (msg : list Z) : length (MD5.Sum msg) = 16%nat.
Proof.
  unfold MD5.Sum. cbv zeta. rewrite !length_app, !length_bytesLE. reflexivity.
Qed.

Lemma Sum_range (msg : list Z) : Forall (fun y => 0 <= y < 256) (MD5.Sum msg).
Proof.
  unfold MD5.Sum. cbv zeta. rewrite !Forall_app.
  repeat split; apply bytesLE_range.
Qed.

Lemma length_string_of_bytes (bs : list Z) :
  String.length (string_of_bytes bs) = length bs.
Proof.
  unfold string_of_bytes. induction bs as [|x bs IH]; [reflexivity|].
  cbn [map String.string_of_list_ascii String.length]. now rewrite IH.
Qed.

Lemma bytes_of_string_of_bytes (bs : list Z) :
  Forall (fun y => 0 <= y < 256) bs ->
  bytes_of_string (string_of_bytes bs) = bs.
Proof.
  unfold bytes_of_string, string_of_bytes.
  induction 1 as [|x bs Hx _ IH]; [reflexivity|].
  cbn [map String.string_of_list_ascii String.list_ascii_of_string].
  rewrite IH. f_equal.
  rewrite N_ascii_embedding by lia. lia.
Qed.

Lemma length_hexEncode (s : string) :
  String.length (hexEncode s) = (2 * String.length s)%nat.
Proof.
  unfold hexEncode, bytes_of_string.
  induction s as [|ch s IH]; [reflexivity|].
  cbn [String.list_ascii_of_string map flat_map app
       String.string_of_list_ascii String.length].
  rewrite IH. lia.
Qed.

(** C10. [Md5] is a function of its input alone.  Its result is the
    digest that [crypto/md5] computes for the bytes of the input, byte for
    byte, so it is always 16 bytes long, and it is never the hexadecimal
    encoding of the digest, which has 32 characters. *)
Theorem Md5_raw_digest (data : string) :
  bytes_of_string (Md5 data) = MD5.Sum (bytes_of_string data) /\
  String.length (Md5 data) = 16%nat /\
  String.length (hexEncode (Md5 data)) = 32%nat /\
  Md5 data <> hexEncode (Md5 data).
Proof.
  assert (L : String.length (Md5 data) = 16%nat).
  { unfold Md5. now rewrite length_string_of_bytes, length_Sum. }
  assert (L' : String.length (hexEncode (Md5 data)) = 32%nat).
  { now rewrite length_hexEncode, L. }
  repeat split; try assumption.
  - unfold Md5. apply bytes_of_string_of_bytes, Sum_range.
  - intros E. rewrite <- E in L'. congruence.
Qed.

(** The test suite of RFC 1321, in the hexadecimal encoding. *)
Example md5_empty : hexEncode (Md5 "") = "d41d8cd98f00b204e9800998ecf8427e".
Proof. vm_compute. reflexivity. Qed.

Example md5_a : hexEncode (Md5 "a") = "0cc175b9c0f1b6a831c399e269772661".
Proof. vm_compute. reflexivity. Qed.

Example md5_abc : hexEncode (Md5 "abc") = "900150983cd24fb0d6963f7d28e17f72".
Proof. vm_compute. reflexivity. Qed.

Example md5_message_digest :
  hexEncode (Md5 "message digest") = "f96b697d7cb7938d525a2f31aaf161d0".
Proof. vm_compute. reflexivity. Qed.

Example md5_alphabet :
  hexEncode (Md5 "abcdefghijklmnopqrstuvwxyz") =
  "c3fcd3d76192e4007dfb496cca67e13b".
Proof. vm_compute. reflexivity. Qed.

Example md5_alphanumeric :
  hexEncode
    (Md5 "ABCDEFGHIJKLMNOPQRSTUVWXYZabcdefghijklmnopqrstuvwxyz0123456789") =
  "d174ab98d277d9f5a5611c2c9f419d9f".
Proof. vm_compute. reflexivity. Qed.

Example md5_digits :
  hexEncode
    (Md5 "12345678901234567890123456789012345678901234567890123456789012345678901234567890") =
  "57edf4a22be3c955ac49da2e2107b67a".
Proof. vm_compute. reflexivity. Qed.

(** The raw digest of the empty string: 16 bytes, not text. *)
Example md5_empty_raw :
  bytes_of_string (Md5 "") =
  [0xd4; 0x1d; 0x8c; 0xd9; 0x8f; 0x00; 0xb2; 0x04;
   0xe9; 0x80; 0x09; 0x98; 0xec; 0xf8; 0x42; 0x7e].
Proof. vm_compute. reflexivity. Qed.

End Md5Facts.

(** * The audit logger on the example of its source comment *)

Section AuditScenarios.
Import DemoAudit.

(** C9 on the code: for the transaction of 2009-08-22 13:24:20 +0100 the
    line has [220] where the seconds belong: the day of the month, 22, and
    the digit 0.  With the layout [15:04:05] the timestamp is the one of
    the comment in the source. *)
Theorem auditLine_day_for_seconds :
  auditLine sample = sampleLine "22/Aug/2009:13:24:220 +0100" /\
  Time.Format (Time.Unix Local 0 (Timestamp sample)) secondsLayout =
    "22/Aug/2009:13:24:20 +0100" /\
  auditLine sample <> sampleLine "22/Aug/2009:13:24:20 +0100".
Proof.
  split; [vm_compute; reflexivity|].
  split; [vm_compute; reflexivity|].
  vm_compute. discriminate.
Qed.

(** The line of the sample is the same for every Go release: its text
    is ASCII without DEL, for which the quoting consults neither the
    table of the wider runes nor the way DEL is written. *)
Example sample_line_any_release (G : GoRelease) :
  @auditLine audited view G sample = auditLine sample.
Proof. destruct G as [table del]. vm_compute. reflexivity. Qed.

(** For every instant the two layouts differ in that position only. *)
Example seconds_position (x : Time.t) :
  exists front back,
    Time.Format x auditLayout =
      front +:+ Time.appendInt (Time.Day x) 0 +:+ "0 " +:+ back /\
    Time.Format x secondsLayout =
      front +:+ Time.appendInt (Time.Second x) 2 +:+ " " +:+ back.
Proof.
  exists (Time.appendInt (Time.Day x) 2 +:+ "/" +:+
          String.substring 0 3 (Time.monthName (Time.Month x)) +:+ "/" +:+
          Time.appendInt (Time.Year x) 4 +:+ ":" +:+
          Time.appendInt (Time.Hour x) 2 +:+ ":" +:+
          Time.appendInt (Time.Minute x) 2 +:+ ":"),
         (Time.zone x false false false).
  rewrite Format_auditLayout, Format_secondsLayout.
  rewrite !append_assoc. split; reflexivity.
Qed.

(** The scenario of a successful write. *)
Example audit_written :
  let r := WriteAudit noFaults logger sample emptyWorld in
  fst r = None /\
  contentOf (fs (snd r)) (auditFile sample) = Some (json sample) /\
  printed (snd r) = auditLine sample +:+ newline.
Proof. vm_compute. repeat split; reflexivity. Qed.

Lemma WriteAudit_outcome_witness :
  contentOf (fs (snd (WriteAudit noFaults logger sample emptyWorld)))
    (auditFile sample) = Some (json sample) /\
  printed (snd (WriteAudit diskFull logger sample emptyWorld)) = "".
Proof.
  split.
  - apply (proj1 (proj2 (proj2 (WriteAudit_outcome (V:=view) noFaults logger
                                   sample emptyWorld)))).
    vm_compute. reflexivity.
  - apply (proj1 (proj2 (WriteAudit_outcome (V:=view) diskFull logger sample
                           emptyWorld))).
    vm_compute. discriminate.
Defined.

(** C8 as stated does not hold: when the disk is full after three bytes,
    [WriteAudit] reports the failure and leaves a JSON file with the first
    three bytes of the document. *)
Lemma json_left_partial :
  fst (WriteAudit diskFull logger sample emptyWorld) =
    Some "no space left on device" /\
  contentOf (fs (snd (WriteAudit diskFull logger sample emptyWorld)))
    (auditFile sample) = Some (String.substring 0 3 (json sample)) /\
  ~ jsonAtomic diskFull logger sample emptyWorld.
Proof.
  split; [vm_compute; reflexivity|].
  split; [vm_compute; reflexivity|].
  intros [A|B]; vm_compute in A || vm_compute in B; discriminate.
Qed.

End AuditScenarios.

(** * More properties of [rule.go] *)

Section EngineMoreFacts.
Context `{H : Host}.

Abbreviation Rule := (Rule.t Action Operator).

Lemma removed_In (r : Rule) (s : State) :
  removed r s = true <-> In (Rule.Id r) (RuleRemoveById (tx s)).
Proof.
  unfold removed. rewrite existsb_exists. split.
  - intros (nid & Hin & E). apply Z.eqb_eq in E. now subst.
  - intros Hin. exists (Rule.Id r). split; [exact Hin | apply Z.eqb_refl].
Qed.

Lemma matchVariables_first_call (r : Rule) (s : State) :
  exists ecol rest,
    trace (matchVariables r s) = CallGetRemovedTargets (Rule.Id r) ecol :: rest.
Proof.
  unfold matchVariables. cbv beta zeta delta [bind call]. cbn [trace app].
  eauto.
Qed.

(** X1. A rule whose id is in [tx.RuleRemoveById] is skipped before
    anything is done: [Evaluate] returns no match, calls nothing and leaves
    the transaction and the heap as they are.  Any other rule makes at
    least the call of [tx.GetRemovedTargets]. *)
Theorem removed_rule_skipped (r : Rule) (s : State) :
  (In (Rule.Id r) (RuleRemoveById (tx s)) ->
   Evaluate r s = mkOutcome [] s []) /\
  (trace (Evaluate r s) = [] <-> In (Rule.Id r) (RuleRemoveById (tx s))).
Proof.
  split.
  - intros Hin. apply removed_In in Hin. now rewrite Evaluate_unfold, Hin.
  - rewrite <- removed_In.
    destruct (matchVariables_first_call r s) as (ecol & rest & E).
    destruct (Evaluate_Run r s) as [Hrem|Hrem Hv|Hrem Hv Hc|msgs mv Hrem Hv Hc];
      cbn [trace]; unfold stageVariables in *; rewrite ?E; cbn [app];
      split; congruence.
Qed.

(** *** Matches and runs of the operator *)

Lemma justified_app_l (r : Rule) tr tr' mv :
  justified r tr mv -> justified r (tr ++ tr') mv.
Proof.
  unfold justified. intros F. eapply Forall_impl; [exact F|].
  intros md (b & Hin & Hm). exists b. split; [|exact Hm].
  apply in_app_iff. now left.
Qed.

Lemma justified_app_r (r : Rule) tr tr' mv :
  justified r tr' mv -> justified r (tr ++ tr') mv.
Proof.
  unfold justified. intros F. eapply Forall_impl; [exact F|].
  intros md (b & Hin & Hm). exists b. split; [|exact Hm].
  apply in_app_iff. now right.
Qed.

Lemma justified_snoc (r : Rule) tr mv md :
  justified r tr mv -> justified r tr [md] -> justified r tr (mv ++ [md]).
Proof. unfold justified. intros F1 F2. apply Forall_app. now split. Qed.

Lemma justified_run (r : Rule) data s mdv :
  MatchData.Value mdv = data ->
  value (executeOperator r data s) = true ->
  justified r (trace (executeOperator r data s)) [mdv].
Proof.
  intros Hv Hb. rewrite executeOperator_value in Hb.
  rewrite executeOperator_trace. constructor; [|constructor].
  eexists. rewrite Hv. split; [now left | exact Hb].
Qed.

Lemma for_range_justified {A} (r : Rule) (l : list A)
    (body : list MatchData.t -> A -> M (list MatchData.t)) :
  (forall x acc s tr0,
     justified r tr0 acc ->
     justified r (tr0 ++ trace (body acc x s)) (value (body acc x s))) ->
  forall acc s tr0,
    justified r tr0 acc ->
    justified r (tr0 ++ trace (for_range l body acc s))
      (value (for_range l body acc s)).
Proof.
  intros Hbody. induction l as [|x l IH]; intros acc s tr0 J.
  - cbn. now rewrite app_nil_r.
  - cbn [for_range]. cbv beta zeta delta [bind]. cbn [value trace].
    rewrite app_assoc. apply IH. now apply Hbody.
Qed.

Lemma matchArg_justified (r : Rule) arg carg acc s tr0 :
  justified r tr0 acc ->
  justified r (tr0 ++ trace (matchArg r arg acc carg s))
    (value (matchArg r arg acc carg s)).
Proof.
  intros J. unfold matchArg. cbv beta zeta delta [bind ret].
  cbn [value trace]. rewrite app_nil_r.
  destruct (value (executeOperator r carg s)) eqn:Hb.
  - apply justified_snoc; [now apply justified_app_l|].
    apply justified_app_r. now apply justified_run.
  - now apply justified_app_l.
Qed.

Lemma matchValue_justified (r : Rule) arg acc s tr0 :
  justified r tr0 acc ->
  justified r (tr0 ++ trace (matchValue r acc arg s))
    (value (matchValue r acc arg s)).
Proof.
  unfold matchValue. apply for_range_justified.
  intros; now apply matchArg_justified.
Qed.

Lemma matchVariable_justified (r : Rule) ecol v acc s tr0 :
  justified r tr0 acc ->
  justified r (tr0 ++ trace (matchVariable r ecol acc v s))
    (value (matchVariable r ecol acc v s)).
Proof.
  intros J. rewrite matchVariable_unfold. cbv zeta. cbn [value trace].
  set (c := CallGetField _ _ _ _). set (s2 := mkState _ _).
  set (values := if RuleVariable.Count v then _ else _).
  change (tr0 ++ c :: ?t) with (tr0 ++ [c] ++ t). rewrite app_assoc.
  assert (J' : justified r (tr0 ++ [c]) acc) by now apply justified_app_l.
  destruct (len values =? 0).
  - cbv beta zeta delta [bind ret]. cbn [value trace]. rewrite app_nil_r.
    destruct (value (executeOperator r "" s2)) eqn:Hb.
    + apply justified_snoc; [now apply justified_app_l|].
      apply justified_app_r. now apply justified_run.
    + now apply justified_app_l.
  - apply for_range_justified; [|exact J'].
    intros; now apply matchValue_justified.
Qed.

(** X2. The loop over the variables returns one match for each run of
    the operator that [executeOperator] reported as a match, no more and no
    less, and the value of every match is an argument on which such a run
    matched. *)
Theorem matches_are_operator_matches (r : Rule) (s : State) :
  let o := matchVariables r s in
  length (value o) = matchCount r (trace o) /\
  justified r (trace o) (value o).
Proof.
  cbv zeta. split; [apply (matchVariables_counts r s)|].
  unfold matchVariables. cbv beta zeta delta [bind call].
  cbn [value state trace]. set (c := CallGetRemovedTargets _ _).
  apply (for_range_justified r (Rule.Variables r) _
           (fun x acc s tr0 => matchVariable_justified r _ x acc s tr0)).
  constructor.
Qed.




(** X4. A variable that is not counting and for which [GetField]
    returns nothing has the operator run exactly once, on the empty string
    as it is: the transformations are not applied.  With a match, the
    match that is added is the empty [MatchData], without collection or
    key. *)
Theorem no_value_runs_operator_on_empty (r : Rule) (ecol : list Target.t)
    (acc : list MatchData.t) (v : RuleVariable.t) (s : State) excs rest :
  RuleVariable.Count v = false ->
  trace (matchVariable r ecol acc v s) =
    CallGetField (RuleVariable.Collection v) (RuleVariable.Key v) excs []
      :: rest ->
  exists b,
    rest = [CallOperator "" b] /\
    value (matchVariable r ecol acc v s) =
      if xorb (RuleOp.Negation (Rule.OperatorObj r)) b
      then acc ++ [MatchData.zero] else acc.
Proof.
  intros Hcount. rewrite matchVariable_unfold. cbv zeta. rewrite Hcount.
  set (g := GetField _ _ _ _). set (s2 := mkState _ _).
  cbn [value trace]. intros E. injection E as _ Hvalues Hrest.
  revert Hrest. rewrite Hvalues.
  change (len (@nil MatchData.t) =? 0) with true. cbv iota.
  unfold bind at 1 2. cbn [value trace ret].
  rewrite app_nil_r, executeOperator_trace, executeOperator_value.
  intros <-. eexists. split; reflexivity.
Qed.

(** X5. The exceptions that [tx.GetField] receives for a variable are
    the exceptions of the variable followed by the keys of the removed
    targets of the rule whose name is the collection of the variable, in
    the order of [tx.GetRemovedTargets] and with repetitions kept. *)
Theorem getField_exceptions (r : Rule) (ecol : list Target.t)
    (acc : list MatchData.t) (v : RuleVariable.t) (s : State) :
  allocated (heap s) (RuleVariable.Exceptions v) ->
  exists values rest,
    trace (matchVariable r ecol acc v s) =
    CallGetField (RuleVariable.Collection v) (RuleVariable.Key v)
      (slice_read (heap s) (RuleVariable.Exceptions v) ++
       map Target.Key
         (List.filter
            (fun c => String.eqb (Target.Name c) (RuleVariable.Collection v))
            ecol))
      values :: rest.
Proof.
  intros Hal. rewrite matchVariable_unfold. cbv zeta. cbn [trace].
  pose proof (buildExceptions_merges v ecol s Hal) as E. cbv zeta in E.
  rewrite E. unfold removedKeys. eauto.
Qed.

(** *** The order of the calls of an activation *)




(** X7. The list that a matching [Evaluate] returns is the matches of
    the rule itself, the ones it passed to [tx.MatchVars], followed by
    what the evaluation of each link of its chain returned, in the order of
    the chain. *)
Theorem matches_in_chain_order (r : Rule) (s : State) :
  let o := Evaluate r s in
  value o <> [] ->
  exists own,
    In (CallMatchVars own) (trace o) /\
    own <> [] /\
    value o = own ++ concat (map snd (nestedCalls (trace o))).
Proof.
  cbv zeta.
  destruct (stageActions_trace r s) as (e & _ & E2).
  destruct (Evaluate_Run r s) as [Hrem|Hrem Hv|Hrem Hv Hc|msgs mv Hrem Hv Hc];
    cbn [value trace]; try congruence.
  intros _. exists (value (stageVariables r s)).
  pose proof (stageChain_spec r s) as S. rewrite Hc in S.
  destruct S as (_ & _ & E3 & _).
  split; [|split; [exact Hv|]].
  - rewrite !in_app_iff. right; left. rewrite E2. now left.
  - rewrite !nestedCalls_app.
    rewrite (nestedCalls_none variableCall _ (fun _ _ _ => eq_refl)
               (stageVariables_calls r s)).
    rewrite (nestedCalls_none actionStageCall _ (fun _ _ _ => eq_refl)
               (stageActions_calls r s)).
    rewrite (nestedCalls_none finalCall _ (fun _ _ _ => eq_refl)
               (afterChain_calls r msgs mv _)).
    rewrite app_nil_r. exact E3.
Qed.

(** *** How often the links of a chain are evaluated *)

Lemma activations_cons c tr :
  activations (c :: tr) = (callActivations c + activations tr)%nat.
Proof. reflexivity. Qed.

Lemma activations_app t1 t2 :
  activations (t1 ++ t2) = (activations t1 + activations t2)%nat.
Proof.
  induction t1 as [|c t1 IH]; [reflexivity|].
  cbn [app]. rewrite !activations_cons, IH. lia.
Qed.

Lemma callActivations_nested nr sub m :
  callActivations (CallEvaluate nr sub m) = S (activations sub).
Proof. reflexivity. Qed.

Lemma activations_none (q : Call -> bool) tr :
  (forall nr sub m, q (CallEvaluate nr sub m) = false) ->
  Forall (fun c => q c = true) tr -> activations tr = 0%nat.
Proof.
  intros Hq. induction 1 as [|c tr Hc _ IH]; [reflexivity|].
  rewrite activations_cons, IH.
  destruct c; try reflexivity. now rewrite Hq in Hc.
Qed.

Lemma chainLoop_activations (P : Rule -> Prop) :
  (forall nr s, P nr -> value (Evaluate nr s) <> [] ->
     S (activations (trace (Evaluate nr s))) = (2 ^ length (links nr))%nat) ->
  forall prev,
    (forall nr, In nr (links prev) -> P nr) ->
    forall msgs mv s,
      value (chainLoop Evaluate prev msgs mv s) <> None ->
      S (activations (trace (chainLoop Evaluate prev msgs mv s))) =
      (2 ^ length (links prev))%nat.
Proof.
  intros HP. induction prev as [prev IH] using Rule_chain_ind.
  intros Hlinks msgs mv s. rewrite links_unfold in Hlinks |- *.
  destruct (Rule.Chain prev) as [nr|] eqn:Hc.
  - rewrite (chainLoop_step Evaluate prev nr msgs mv s Hc). cbv zeta.
    destruct (len (value (Evaluate nr s)) =? 0) eqn:Hlen; cbn [value trace];
      [congruence|].
    apply len_nonzero in Hlen. intros Hsome.
    rewrite !activations_cons, callActivations_nested. cbn [callActivations].
    pose proof (HP nr s (Hlinks nr (or_introl eq_refl)) Hlen) as E1.
    pose proof (IH nr eq_refl (fun x Hx => Hlinks x (or_intror Hx)) _ _ _ Hsome)
      as E2.
    cbn [length Nat.pow]. lia.
  - rewrite (chainLoop_last Evaluate prev msgs mv s Hc). reflexivity.
Qed.

(** X8. A matching evaluation of a rule with a chain of [n] links
    evaluates links [2^n - 1] times in all: each link is evaluated by the
    loop of the head and again by the loop of every link before it, so the
    last of three links is evaluated four times. *)
Theorem chain_evaluations_double (r : Rule) (s : State) :
  value (Evaluate r s) <> [] ->
  S (activations (trace (Evaluate r s))) = (2 ^ length (links r))%nat.
Proof.
  revert s. induction r as [r IH] using Rule_links_ind. intros s.
  destruct (Evaluate_Run r s) as [Hrem|Hrem Hv|Hrem Hv Hc|msgs mv Hrem Hv Hc];
    cbn [value trace]; try congruence.
  intros _. rewrite !activations_app.
  rewrite (activations_none variableCall _ (fun _ _ _ => eq_refl)
             (stageVariables_calls r s)).
  rewrite (activations_none actionStageCall _ (fun _ _ _ => eq_refl)
             (stageActions_calls r s)).
  rewrite (activations_none finalCall _ (fun _ _ _ => eq_refl)
             (afterChain_calls r msgs mv _)).
  rewrite Nat.add_0_r. cbn [Nat.add].
  apply (chainLoop_activations (fun nr => In nr (links r))).
  - intros nr s' Hin. now apply IH.
  - auto.
  - unfold stageChain in Hc. rewrite Hc. discriminate.
Qed.

(** *** [AddVariable] and [AddNegateVariable] *)

Lemma withVariables_same (r : Rule) : withVariables r (Rule.Variables r) = r.
Proof. destruct r; reflexivity. Qed.

Lemma Variables_withVariables (r : Rule) vs :
  Rule.Variables (withVariables r vs) = vs.
Proof. reflexivity. Qed.

Lemma addNegateLoop_none (coll key : string) (vars : list RuleVariable.t) s :
  Forall (fun u => RuleVariable.Collection u <> coll) vars ->
  addNegateLoop vars coll key s = mkOutcome vars s [].
Proof.
  induction 1 as [|u vars Hu _ IH]; [reflexivity|].
  cbn [addNegateLoop]. apply String.eqb_neq in Hu. rewrite Hu.
  cbv beta zeta delta [bind ret]. rewrite IH. reflexivity.
Qed.

Lemma addNegateLoop_first (coll key : string) pre v post s :
  Forall (fun u => RuleVariable.Collection u <> coll) pre ->
  RuleVariable.Collection v = coll ->
  addNegateLoop (pre ++ v :: post) coll key s =
  mkOutcome
    (pre ++ withExceptions v (value (append (RuleVariable.Exceptions v) key s))
         :: post)
    (state (append (RuleVariable.Exceptions v) key s)) [].
Proof.
  intros Hpre Hv. induction Hpre as [|u pre Hu _ IH]; cbn [app addNegateLoop].
  - apply String.eqb_eq in Hv. rewrite Hv.
    cbv beta zeta delta [bind ret]. cbn [value state trace].
    destruct (silent_append (RuleVariable.Exceptions v) key s) as [T _].
    rewrite T. reflexivity.
  - apply String.eqb_neq in Hu. rewrite Hu.
    cbv beta zeta delta [bind ret]. rewrite IH. reflexivity.
Qed.

Lemma append_other sl x s sl' :
  (Slice.array sl' < length (heap s))%nat ->
  Slice.array sl' <> Slice.array sl ->
  slice_read (heap (state (append sl x s))) sl' = slice_read (heap s) sl'.
Proof.
  intros Hlt Hne. unfold append, slice_read.
  destruct (Slice.len sl <? Slice.cap sl)%nat; cbn [state heap].
  - now rewrite list_lookup_insert_ne by congruence.
  - now rewrite lookup_app_l by exact Hlt.
Qed.

(** X9. [AddNegateVariable] adds the key to the exceptions of the
    first variable on the collection and to no other: the variables before
    and after it, also later ones on the same collection, keep their slice,
    and every slice on another backing array reads as before.  When no
    variable is on the collection, the rule and the heap are left as they
    are, without any sign of it. *)
Theorem AddNegateVariable_first_only (r : Rule) (coll key : string)
    (s : State) :
  (Forall (fun u => RuleVariable.Collection u <> coll) (Rule.Variables r) ->
   AddNegateVariable r coll key s = mkOutcome r s []) /\
  (forall pre v post,
     Rule.Variables r = pre ++ v :: post ->
     Forall (fun u => RuleVariable.Collection u <> coll) pre ->
     RuleVariable.Collection v = coll ->
     allocated (heap s) (RuleVariable.Exceptions v) ->
     let o := AddNegateVariable r coll key s in
     exists e,
       Rule.Variables (value o) = pre ++ withExceptions v e :: post /\
       slice_read (heap (state o)) e =
         slice_read (heap s) (RuleVariable.Exceptions v) ++ [key] /\
       forall sl,
         (Slice.array sl < length (heap s))%nat ->
         Slice.array sl <> Slice.array (RuleVariable.Exceptions v) ->
         slice_read (heap (state o)) sl = slice_read (heap s) sl).
Proof.
  split.
  - intros Hnone. unfold AddNegateVariable. cbv beta zeta delta [bind ret].
    rewrite (addNegateLoop_none coll key _ s Hnone). cbn [value state trace].
    now rewrite withVariables_same.
  - intros pre v post Hvars Hpre Hv Hal. cbv zeta.
    unfold AddNegateVariable. cbv beta zeta delta [bind ret].
    rewrite Hvars, (addNegateLoop_first coll key pre v post s Hpre Hv).
    cbn [value state trace].
    exists (value (append (RuleVariable.Exceptions v) key s)).
    split; [reflexivity|]. split.
    + apply append_read, Hal.
    + intros sl Hlt Hne. now apply append_other.
Qed.

(** X10. A variable made by [AddVariable] starts without exceptions;
    when no earlier variable is on its collection, an [AddNegateVariable]
    for the collection reaches it, its exceptions are then the key alone,
    and they are in a backing array of their own: the arrays that existed
    are all as before. *)
Theorem AddVariable_then_negate (r : Rule) (count : bool)
    (coll k key : string) (s : State) :
  Forall (fun u => RuleVariable.Collection u <> coll) (Rule.Variables r) ->
  let o := AddNegateVariable (AddVariable r count coll k) coll key s in
  exists e,
    Rule.Variables (value o) =
      Rule.Variables r ++ [RuleVariable.mk count coll k e] /\
    slice_read (heap (state o)) e = [key] /\
    exists arr, heap (state o) = heap s ++ [arr].
Proof.
  intros Hnone. cbv zeta. unfold AddNegateVariable, AddVariable.
  cbv beta zeta delta [bind ret]. rewrite Variables_withVariables.
  rewrite (addNegateLoop_first coll key (Rule.Variables r)
             (RuleVariable.mk count coll k emptySlice) [] s Hnone eq_refl).
  cbn [value state trace RuleVariable.Exceptions].
  exists (value (append emptySlice key s)).
  split; [reflexivity|].
  assert (Hal : allocated (heap s) emptySlice).
  { unfold allocated, emptySlice. cbn. lia. }
  destruct (append_read emptySlice key s Hal) as [R _].
  split; [exact R|]. unfold append, emptySlice.
  cbn [Slice.len Slice.cap Nat.ltb Nat.leb state heap]. eauto.
Qed.

(** *** The messages of a chain *)







(** *** A rule without variables *)

(** X18. A rule without variables never matches, whatever its
    operator, negated or not: the operator is not run, no action is
    evaluated, no rule of its chain is evaluated, nothing is logged, and
    the result is empty. *)
Theorem no_variables_no_match (r : Rule) (s : State) :
  Rule.Variables r = [] ->
  let o := Evaluate r s in
  value o = [] /\
  operatorArgs (trace o) = [] /\
  actionCalls (trace o) = [] /\
  nestedCalls (trace o) = [] /\
  matchRuleCalls (trace o) = [] /\
  heap (state o) = heap s.
Proof.
  intros Hv. cbv zeta. rewrite Evaluate_unfold.
  destruct (removed r s); [repeat split|].
  unfold matchVariables. rewrite Hv.
  cbv beta zeta delta [bind call for_range ret].
  cbn. repeat split.
Qed.

End EngineMoreFacts.
Section TransformationFacts.
Context `{H : Host}.

Lemma multimatchLoop_app (ts1 ts2 : list RuleTransformation.t) :
  forall value res,
    multimatchLoop (ts1 ++ ts2) value res =
    multimatchLoop ts2 (fold_left callTf ts1 value)
      (multimatchLoop ts1 value res).
Proof.
  induction ts1 as [|t ts1 IH]; intros value res;
    cbn [app multimatchLoop fold_left]; [reflexivity | apply IH].
Qed.

(** X17. A pipeline applies its transformations from left to right:
    the pipeline of a rule whose transformations are those of [r1] followed
    by those of [r2] gives what [r2] gives on the result of [r1].  With
    [MultiMatch], the arguments for the longer pipeline start with all the
    arguments for [r1], followed by those for [r2] on the result of [r1]
    without their first: transformations added at the end only add
    arguments. *)
Theorem transformations_compose (r r1 r2 : Rule.t Action Operator)
    (value : string) :
  Rule.Transformations r =
    Rule.Transformations r1 ++ Rule.Transformations r2 ->
  executeTransformations r value =
    executeTransformations r2 (executeTransformations r1 value) /\
  executeTransformationsMultimatch r value =
    executeTransformationsMultimatch r1 value ++
    drop 1 (executeTransformationsMultimatch r2
              (executeTransformations r1 value)).
Proof.
  intros E. unfold executeTransformations, executeTransformationsMultimatch.
  rewrite E. split; [apply fold_left_app|].
  rewrite multimatchLoop_app.
  rewrite (multimatchLoop_spec (Rule.Transformations r2) _ (multimatchLoop _ _ _)).
  rewrite (multimatchLoop_spec (Rule.Transformations r2) _ [_]).
  reflexivity.
Qed.

End TransformationFacts.

(** * More properties of the audit logger *)

Section AuditMoreFacts.
Context {Tx : Type} `{V : AuditView Tx} {G : GoRelease}.

(** *** The end of the concise line *)

Lemma lastChar_append (a b : string) :
  b <> "" -> lastChar (a +:+ b) = lastChar b.
Proof.
  intros Hb. induction a as [|c a IH]; [reflexivity|].
  change (String c a +:+ b) with (String c (a +:+ b)).
  cbn [lastChar]. destruct (a +:+ b) eqn:E; [|exact IH].
  destruct a; [cbn in E; contradiction | discriminate E].
Qed.

Lemma length_append (a b : string) :
  String.length (a +:+ b) = (String.length a + String.length b)%nat.
Proof.
  induction a as [|c a IH]; [reflexivity|].
  change (String c a +:+ b) with (String c (a +:+ b)).
  cbn [String.length]. now rewrite IH.
Qed.

Lemma get_last (s : string) :
  String.get (String.length s - 1) s = lastChar s.
Proof.
  induction s as [|c s IH]; [reflexivity|].
  destruct s as [|c' s']; [reflexivity|].
  replace (String.length (String c (String c' s')) - 1)%nat
    with (S (String.length s')) by (cbn [String.length]; lia).
  replace (String.length (String c' s') - 1)%nat
    with (String.length s') in IH by (cbn [String.length]; lia).
  change (lastChar (String c (String c' s'))) with (lastChar (String c' s')).
  rewrite <- IH. reflexivity.
Qed.

Lemma lastChar_uint (d : Decimal.uint) :
  d <> Decimal.Nil ->
  exists c, lastChar (NilEmpty.string_of_uint d) = Some c /\ isDigit c = true.
Proof.
  induction d as [|d IH|d IH|d IH|d IH|d IH|d IH|d IH|d IH|d IH|d IH];
    intros Hne; [contradiction| | | | | | | | | |];
    cbn [NilEmpty.string_of_uint lastChar];
    (destruct d; [eexists; split; reflexivity | | | | | | | | | |];
     apply IH; discriminate).
Qed.

Lemma lastChar_Itoa (n : Z) :
  exists c, lastChar (Itoa n) = Some c /\ isDigit c = true.
Proof.
  unfold Itoa. destruct n as [|p|p]; cbn [Z.to_int NilZero.string_of_int].
  - eexists; split; reflexivity.
  - pose proof (DecimalPos.Unsigned.to_uint_nonnil p) as Hp.
    unfold NilZero.string_of_uint.
    destruct (Pos.to_uint p) eqn:E; try contradiction;
      rewrite <- E; apply lastChar_uint; congruence.
  - pose proof (DecimalPos.Unsigned.to_uint_nonnil p) as Hp.
    unfold NilZero.string_of_uint.
    destruct (lastChar_uint (Pos.to_uint p) Hp) as (c & Hc & Hd).
    exists c. split; [|exact Hd].
    destruct (Pos.to_uint p) eqn:E; try contradiction;
      rewrite <- E in *;
      (destruct (NilEmpty.string_of_uint (Pos.to_uint p)) eqn:E';
       [discriminate Hc | exact Hc]).
Qed.

Lemma digit_not_newline (c : ascii) :
  isDigit c = true -> Ascii.eqb c (ascii_of_nat 10) = false.
Proof.
  intros Hd. apply Ascii.eqb_neq. intros ->. discriminate Hd.
Qed.

Lemma auditLine_last (tx : Tx) :
  exists c, lastChar (auditLine tx) = Some c /\ isDigit c = true.
Proof.
  rewrite auditLine_fields.
  destruct (lastChar_Itoa
              (GetFirstInt64 (GetCollection tx "request_body_length") ""))
    as (c & Hc & Hd).
  exists c. split; [|exact Hd]. rewrite <- Hc.
  assert (Hne : forall n, Itoa n <> "")
    by (intros n E; destruct (lastChar_Itoa n) as (? & E' & _);
        rewrite E in E'; discriminate).
  repeat (rewrite lastChar_append;
          [|try apply Hne;
            intros E; apply (f_equal String.length) in E;
            rewrite !length_append in E; cbn [String.length] in E; lia]).
  reflexivity.
Qed.

(** X11. The concise line ends with the last digit of the length of the
    request body, never with a newline, so a [WriteAudit] that succeeds and
    prints without error appends to the central file exactly the line and
    one newline. *)
Theorem WriteAudit_appends_line (k : Faults) (l : ConcurrentLogger.t)
    (tx : Tx) (w : World) :
  firstError k = None -> printError k = None ->
  printed (snd (WriteAudit k l tx w)) = printed w +:+ auditLine tx +:+ newline.
Proof.
  unfold firstError, WriteAudit, MkdirAll, WriteFile.
  destruct (mkdirAllError k); [discriminate|].
  destruct (openError k); [discriminate|].
  destruct (writeError k) as [[n e]|]; [discriminate|].
  intros -> Hp. cbn [fst snd printed Print]. rewrite Hp.
  unfold endsWithNewline. rewrite get_last.
  destruct (auditLine_last tx) as (c & -> & Hd).
  now rewrite (digit_not_newline c Hd).
Qed.

(** X12. For every transaction the concise line is, in this order and
    separated by single spaces: the remote address, a dash for the server
    address whatever the transaction holds, two more dashes, the timestamp
    in brackets, the quoted request line, the response status, the response
    length, two quoted dashes, the transaction id, a quoted dash, the path
    of the JSON file, 0 and the length of the request body.  The timestamp
    is day/month/year:hour:minute, then the day of the month and a 0, then
    the zone. *)
Theorem auditLine_rendering (tx : Tx) :
  let x := Time.Unix Local 0 (Timestamp tx) in
  auditLine tx =
  GetFirstString (GetCollection tx "remote_addr") "" +:+ " - - - [" +:+
  (Time.appendInt (Time.Day x) 2 +:+ "/" +:+
   String.substring 0 3 (Time.monthName (Time.Month x)) +:+ "/" +:+
   Time.appendInt (Time.Year x) 4 +:+ ":" +:+
   Time.appendInt (Time.Hour x) 2 +:+ ":" +:+
   Time.appendInt (Time.Minute x) 2 +:+ ":" +:+
   Time.appendInt (Time.Day x) 0 +:+ "0 " +:+
   Time.zone x false false false) +:+ "] " +:+
  Quote (GetFirstString (GetCollection tx "request_line") "") +:+ " " +:+
  Itoa (GetFirstInt (GetCollection tx "response_status") "") +:+ " " +:+
  Itoa (GetFirstInt64 (GetCollection tx "response_content_length") "") +:+
  " " +:+ Quote "-" +:+ " " +:+ Quote "-" +:+ " " +:+ TxId tx +:+ " " +:+
  Quote "-" +:+ " " +:+ auditFile tx +:+ " 0 " +:+
  Itoa (GetFirstInt64 (GetCollection tx "request_body_length") "").
Proof.
  cbv zeta. rewrite auditLine_fields, Format_auditLayout. reflexivity.
Qed.

(** X13. The timestamp of the concise line does not depend on the
    seconds: two instants with the same date, hour, minute and zone are
    written the same. *)
Theorem timestamp_ignores_seconds (x y : Time.t) :
  Time.Year x = Time.Year y ->
  Time.Month x = Time.Month y ->
  Time.Day x = Time.Day y ->
  Time.Hour x = Time.Hour y ->
  Time.Minute x = Time.Minute y ->
  Time.offset x = Time.offset y ->
  Time.Format x auditLayout = Time.Format y auditLayout.
Proof.
  intros Hy Hm Hd Hh Hmin Ho. rewrite !Format_auditLayout.
  unfold Time.zone. now rewrite Hy, Hm, Hd, Hh, Hmin, Ho.
Qed.

(** X14. [WriteAudit] returns the first error it meets, in the order
    directory, open, write, close: an error of the write hides an error of
    the close.  When the directory cannot be created or the JSON file
    cannot be opened, no file is touched. *)
Theorem WriteAudit_first_error (k : Faults) (l : ConcurrentLogger.t)
    (tx : Tx) (w : World) :
  let r := WriteAudit k l tx w in
  fst r = firstError k /\
  (mkdirAllError k <> None \/ openError k <> None ->
   FS.files (fs (snd r)) = FS.files (fs w)).
Proof.
  cbv zeta. unfold firstError, WriteAudit, MkdirAll, WriteFile.
  destruct (mkdirAllError k) as [e|].
  { cbn. split; [reflexivity | intros _; reflexivity]. }
  destruct (openError k) as [e|].
  { cbn. split; [reflexivity | intros _; reflexivity]. }
  destruct (writeError k) as [[n e]|]; [cbn; split; [reflexivity | intuition]|].
  destruct (closeError k) as [e|]; cbn; split; try reflexivity; intuition.
Qed.

(** X15. Once the JSON file is opened, what it held before is gone: the
    file holds the whole document, or the part written before the write
    failed, and nothing else; a file that existed keeps its mode.  The
    JSON file is taken not to be the central file of the logger.  Every
    file other than these two is left alone; the central file keeps what
    was appended to it before, with nothing added when the write or the
    close of the JSON file failed. *)
Theorem WriteAudit_replaces_json (k : Faults) (l : ConcurrentLogger.t)
    (tx : Tx) (w : World) (old : FS.file) :
  mkdirAllError k = None -> openError k = None ->
  auditFile tx <> ConcurrentLogger.file l ->
  FS.files (fs w) !! auditFile tx = Some old ->
  let w' := snd (WriteAudit k l tx w) in
  FS.files (fs w') !! auditFile tx =
    Some (FS.mkFile
            (match writeError k with
             | Some (n, _) => String.substring 0 n (ToAuditJson tx)
             | None => ToAuditJson tx
             end) (FS.mode old)) /\
  (forall path,
     path <> auditFile tx -> path <> ConcurrentLogger.file l ->
     FS.files (fs w') !! path = FS.files (fs w) !! path) /\
  (exists out, printed w' = printed w +:+ out) /\
  (writeError k <> None \/ closeError k <> None -> printed w' = printed w).
Proof.
  intros Hmk Hop _ Hold. cbv zeta.
  unfold WriteAudit, MkdirAll, WriteFile. rewrite Hmk, Hop.
  cbn [FS.files]. rewrite Hold.
  destruct (writeError k) as [[n e]|]; [|destruct (closeError k)];
    cbn [fst snd fs printed FS.files Print];
    (split; [now rewrite lookup_insert_eq|]);
    (split; [intros path Hp _; now rewrite lookup_insert_ne by congruence|]).
  - split; [exists EmptyString; now rewrite append_nil_r | reflexivity].
  - split; [exists EmptyString; now rewrite append_nil_r | reflexivity].
  - split; [eexists; reflexivity | intros [Hc|Hc]; congruence].
Qed.

(** X16. [Init] of the logger never shortens the central file: a file
    that exists keeps its content and its mode, a missing one is created
    empty, other files are left alone, and a second [Init] on the same
    file changes nothing more.  With an error of the open, the logger and
    the files are as before. *)
Theorem LoggerInit_keeps_file (k : Faults) (l : ConcurrentLogger.t)
    (file directory : string) (f : FS.t) :
  let r := LoggerInit k l file directory f in
  (openError k = None ->
   fst (fst r) = None /\
   snd (fst r) = ConcurrentLogger.mk file directory /\
   contentOf (snd r) file = Some (default "" (contentOf f file)) /\
   (forall old, FS.files f !! file = Some old ->
                FS.files (snd r) !! file = Some old) /\
   (forall path, path <> file ->
                 FS.files (snd r) !! path = FS.files f !! path) /\
   snd (LoggerInit k (snd (fst r)) file directory (snd r)) = snd r) /\
  (forall e, openError k = Some e -> r = (Some e, l, f)).
Proof.
  cbv zeta. unfold LoggerInit, contentOf. split.
  - intros Hop. rewrite Hop. cbn [fst snd FS.files FS.dirs].
    rewrite !lookup_insert_eq.
    repeat split.
    + destruct (FS.files f !! file); reflexivity.
    + intros old E. now rewrite E.
    + intros path Hp. now rewrite lookup_insert_ne by congruence.
    + now rewrite insert_insert_eq.
  - intros e Hop. now rewrite Hop.
Qed.

End AuditMoreFacts.
(** * The further facts on the scenarios *)

Section MoreScenarios.
Import Demo DemoAudit DemoMore.

Lemma removed_rule_skipped_witness :
  Evaluate denyBadBot (start txRuleRemoved []) =
    mkOutcome [] (start txRuleRemoved []) [] /\
  ~ In 1 (RuleRemoveById (tx (start txBadBot []))).
Proof.
  split.
  - apply (proj1 (removed_rule_skipped (H:=host) denyBadBot
                    (start txRuleRemoved []))).
    left. reflexivity.
  - intros Hin.
    apply (proj2 (removed_rule_skipped (H:=host) denyBadBot
                    (start txBadBot []))) in Hin.
    vm_compute in Hin. discriminate Hin.
Defined.

Lemma no_value_runs_operator_on_empty_witness :
  value (matchVariable notX [] [] (var "ARGS" "id") (start (newTx []) [])) =
    [MatchData.zero].
Proof.
  destruct (no_value_runs_operator_on_empty (H:=host) notX [] []
              (var "ARGS" "id") (start (newTx []) []) []
              [CallOperator "" false] eq_refl eq_refl)
    as (b & Hrest & Hval).
  injection Hrest as <-. exact Hval.
Defined.

Lemma getField_exceptions_witness :
  exists values rest,
    trace (matchVariable anyArg
             [Target.mk "ARGS" "pw"; Target.mk "FILES" "f"; Target.mk "ARGS" "y"]
             [] (RuleVariable.mk false "ARGS" "" (Slice.mk 0 1 2))
             (start txRemovedTargets ruleHeap)) =
    CallGetField "ARGS" "" ["x"; "pw"; "y"] values :: rest.
Proof.
  apply (getField_exceptions (H:=host) anyArg
           [Target.mk "ARGS" "pw"; Target.mk "FILES" "f"; Target.mk "ARGS" "y"]
           [] (RuleVariable.mk false "ARGS" "" (Slice.mk 0 1 2))
           (start txRemovedTargets ruleHeap)).
  split; cbn; lia.
Defined.


Lemma matches_in_chain_order_witness :
  exists own,
    In (CallMatchVars own) (trace (Evaluate first (start txRequest []))) /\
    own <> [] /\
    value (Evaluate first (start txRequest [])) =
      own ++ concat (map snd (nestedCalls
                                (trace (Evaluate first (start txRequest []))))).
Proof.
  apply (matches_in_chain_order (H:=host) first (start txRequest [])).
  vm_compute. discriminate.
Defined.

Lemma chain_evaluations_double_witness :
  S (activations (trace (Evaluate first (start txRequest [])))) =
    (2 ^ length (links first))%nat.
Proof.
  apply (chain_evaluations_double (H:=host) first (start txRequest [])).
  vm_compute. discriminate.
Defined.

Lemma AddNegateVariable_first_only_witness :
  AddNegateVariable anyArg "FILES" "f" (start txRemovedTargets ruleHeap) =
    mkOutcome anyArg (start txRemovedTargets ruleHeap) [] /\
  exists e,
    slice_read
      (heap (state (AddNegateVariable anyArg "ARGS" "pw"
                      (start txRemovedTargets ruleHeap)))) e = ["x"; "pw"].
Proof.
  split.
  - apply (proj1 (AddNegateVariable_first_only (H:=host) anyArg "FILES" "f"
                    (start txRemovedTargets ruleHeap))).
    repeat constructor. discriminate.
  - destruct (proj2 (AddNegateVariable_first_only (H:=host) anyArg "ARGS" "pw"
                       (start txRemovedTargets ruleHeap))
                [] (RuleVariable.mk false "ARGS" "" (Slice.mk 0 1 2)) []
                eq_refl (List.Forall_nil _) eq_refl
                ltac:(split; cbn; lia))
      as (e & _ & E & _).
    exists e. exact E.
Defined.

Lemma AddVariable_then_negate_witness :
  exists e,
    Rule.Variables
      (value (AddNegateVariable (AddVariable argsRule false "ARGS" "") "ARGS"
                "x" (start (newTx []) ruleHeap))) =
      [RuleVariable.mk false "ARGS" "" e] /\
    slice_read
      (heap (state (AddNegateVariable (AddVariable argsRule false "ARGS" "")
                      "ARGS" "x" (start (newTx []) ruleHeap)))) e = ["x"].
Proof.
  destruct (AddVariable_then_negate (H:=host) argsRule false "ARGS" "" "x"
              (start (newTx []) ruleHeap) (List.Forall_nil _))
    as (e & E1 & E2 & _).
  exists e. split; [exact E1 | exact E2].
Defined.

Lemma no_variables_no_match_witness :
  value (Evaluate argsRule (start txRemovedTargets [])) = [].
Proof.
  apply (no_variables_no_match (H:=host) argsRule (start txRemovedTargets [])
           eq_refl).
Defined.


Lemma executeTransformationsMultimatch_spec_witness :
  executeTransformationsMultimatch (pipeline [tfTrimLeft; tfLength]) "  abcd"
    !! 1%nat = Some "abcd" /\
  executeTransformationsMultimatch (pipeline [tfTrimLeft; tfLength]) "  abcd"
    !! 2%nat = Some "4".
Proof.
  split.
  - apply (proj1 (proj2 (proj2 (proj2
             (executeTransformationsMultimatch_spec (H:=host)
                (pipeline [tfTrimLeft; tfLength]) "  abcd"))))
             0%nat tfTrimLeft "  abcd" eq_refl eq_refl).
  - apply (proj1 (proj2 (proj2 (proj2
             (executeTransformationsMultimatch_spec (H:=host)
                (pipeline [tfTrimLeft; tfLength]) "  abcd"))))
             1%nat tfLength "abcd" eq_refl eq_refl).
Defined.

Lemma transformations_compose_witness :
  executeTransformationsMultimatch (pipeline [tfTrimLeft; tfLength]) "  abcd" =
    executeTransformationsMultimatch (pipeline [tfTrimLeft]) "  abcd" ++
    drop 1 (executeTransformationsMultimatch (pipeline [tfLength])
              (executeTransformations (pipeline [tfTrimLeft]) "  abcd")).
Proof.
  apply (proj2 (transformations_compose (H:=host)
                  (pipeline [tfTrimLeft; tfLength]) (pipeline [tfTrimLeft])
                  (pipeline [tfLength]) "  abcd" eq_refl)).
Defined.

Lemma WriteAudit_appends_line_witness :
  printed (snd (WriteAudit noFaults logger sample staleWorld)) =
    printed staleWorld +:+ auditLine sample +:+ newline.
Proof.
  apply (WriteAudit_appends_line (V:=view) noFaults logger sample staleWorld
           eq_refl eq_refl).
Defined.

Lemma timestamp_ignores_seconds_witness :
  Time.Format at132420 auditLayout = Time.Format at132459 auditLayout.
Proof.
  apply (timestamp_ignores_seconds at132420 at132459);
    vm_compute; reflexivity.
Defined.

Lemma WriteAudit_first_error_witness :
  fst (WriteAudit writeAndCloseFail logger sample emptyWorld) =
    Some "no space left on device" /\
  FS.files (fs (snd (WriteAudit noDirectory logger sample staleWorld))) =
    FS.files (fs staleWorld).
Proof.
  split.
  - apply (proj1 (WriteAudit_first_error (V:=view) writeAndCloseFail logger
                    sample emptyWorld)).
  - apply (proj2 (WriteAudit_first_error (V:=view) noDirectory logger sample
                    staleWorld)).
    left. discriminate.
Defined.

Lemma WriteAudit_replaces_json_witness :
  FS.files (fs (snd (WriteAudit diskFull logger sample staleWorld)))
    !! auditFile sample =
  Some (FS.mkFile (String.substring 0 3 (json sample)) 420).
Proof.
  apply (proj1 (WriteAudit_replaces_json (V:=view) diskFull logger sample
                  staleWorld (FS.mkFile "stale" 420) eq_refl eq_refl
                  ltac:(vm_compute; discriminate)
                  (lookup_insert_eq _ _ _))).
Defined.

Lemma LoggerInit_keeps_file_witness :
  contentOf
    (snd (LoggerInit noFaults logger "/var/log/audit.log" "/var/log/audit"
            usedLog)) "/var/log/audit.log" =
    Some ("earlier line" +:+ newline) /\
  LoggerInit cannotOpen logger "/tmp/other.log" "/tmp/other" usedLog =
    (Some "permission denied", logger, usedLog).
Proof.
  split.
  - pose proof (proj1 (LoggerInit_keeps_file noFaults logger
                         "/var/log/audit.log" "/var/log/audit" usedLog)
                  eq_refl) as (_ & _ & E & _).
    rewrite E. unfold contentOf, usedLog. cbn [FS.files].
    now rewrite lookup_insert_eq.
  - apply (proj2 (LoggerInit_keeps_file cannotOpen logger "/tmp/other.log"
                    "/tmp/other" usedLog) "permission denied" eq_refl).
Defined.

End MoreScenarios.
